(** * tqdm.contrib.concurrent: [thread_map] and [process_map]

    A shallow embedding of [tqdm/contrib/concurrent.py] and the properties
    of its parallel-map adapter.

    The Python module is forty lines of glue between three collaborators:
    the object store (the keyword dictionary is deep-copied and then mutated
    in place), a worker pool of [concurrent.futures], and a progress-display
    class.  Each collaborator gets a module of its own below; the adapter
    itself is embedded line by line in [Module Concurrent]. *)

From stdpp Require Import gmap strings list fin_maps sorting.
From Stdlib Require Import ZArith Lia.

(** ** Python values, exceptions and the object store *)

Module Py.

Definition loc := nat.
Definition class_id := nat.

(** Values that can travel in a keyword dictionary or in an input
    sequence.  Mutable containers live in the store and are referred to
    by [VRef]; everything else is immutable and is what [copy.deepcopy]
    treats as atomic.  Objects that [deepcopy] refuses (locks, open
    files) are not among them. *)
Inductive pyval :=
| VNone
| VBool (b : bool)
| VInt (z : Z)
| VStr (s : string)
| VClass (c : class_id)
| VRef (l : loc).

Inductive obj :=
| OList (items : list pyval)
| ODict (items : gmap string pyval).

Inductive exn :=
| TypeError
| ValueError
| IndexError
| AttributeError
| RecursionError
| NotImplementedError
| UserError (tag : nat).

Global Instance pyval_eq_dec : EqDecision pyval.
Proof. solve_decision. Defined.

Global Instance exn_eq_dec : EqDecision exn.
Proof. solve_decision. Defined.

(** Result of calling user code: a value or a raised exception. *)
Inductive res (A : Type) :=
| Ok (a : A)
| Err (e : exn).
Global Arguments Ok {A} a.
Global Arguments Err {A} e.

(** *** [copy.deepcopy]

    [deepcopy] follows the library routine: atomic values are returned
    as they are; a container is looked up in the memo first, otherwise an
    empty copy is allocated and memoised *before* its children are
    copied (so shared and cyclic structure is preserved), and the filled
    copy is stored at the new location.  The routine is recursive in
    Python as well: [fuel] is the depth the interpreter's recursion limit
    leaves, and running out of it is Python's [RecursionError]. *)

Definition copier := pyval → gmap loc loc → gmap loc obj →
                     option (pyval * gmap loc loc * gmap loc obj).

Fixpoint copy_each (f : copier) (xs : list pyval)
    (memo : gmap loc loc) (h : gmap loc obj)
  : option (list pyval * gmap loc loc * gmap loc obj) :=
  match xs with
  | [] => Some ([], memo, h)
  | x :: xs' =>
      match f x memo h with
      | None => None
      | Some (y, memo1, h1) =>
          match copy_each f xs' memo1 h1 with
          | None => None
          | Some (ys, memo2, h2) => Some (y :: ys, memo2, h2)
          end
      end
  end.

Definition alloc (h : gmap loc obj) : loc := fresh (dom h).

Fixpoint deepcopy (fuel : nat) (v : pyval)
    (memo : gmap loc loc) (h : gmap loc obj)
  : option (pyval * gmap loc loc * gmap loc obj) :=
  match v with
  | VRef l =>
      match memo !! l with
      | Some l' => Some (VRef l', memo, h)
      | None =>
          match fuel with
          | O => None
          | S fuel' =>
              match h !! l with
              | None => Some (v, memo, h)
              | Some (OList xs) =>
                  let l' := alloc h in
                  match copy_each (deepcopy fuel') xs
                          (<[l := l']> memo) (<[l' := OList []]> h) with
                  | None => None
                  | Some (ys, memo', h') =>
                      Some (VRef l', memo', <[l' := OList ys]> h')
                  end
              | Some (ODict d) =>
                  let l' := alloc h in
                  let kvs := map_to_list d in
                  match copy_each (deepcopy fuel') (kvs.*2)
                          (<[l := l']> memo) (<[l' := ODict ∅]> h) with
                  | None => None
                  | Some (ys, memo', h') =>
                      Some (VRef l', memo',
                            <[l' := ODict (list_to_map (zip (kvs.*1) ys))]> h')
                  end
              end
          end
      end
  | _ => Some (v, memo, h)
  end.

(** A value whose containers all exist in the store and nest at most
    [n] deep (so it has no dangling and no cyclic reference): what
    [deepcopy] copies without reaching a recursion limit of [n]. *)
Fixpoint nested_within (h : gmap loc obj) (n : nat) (v : pyval) : bool :=
  match v with
  | VRef l =>
      match n with
      | O => false
      | S n' =>
          match h !! l with
          | None => false
          | Some (OList xs) => forallb (nested_within h n') xs
          | Some (ODict d) => forallb (nested_within h n') (map_to_list d).*2
          end
      end
  | _ => true
  end.

(** What a deep copy of a value looks like from outside: an atomic value
    is itself, a container is (a reference to) some container. *)
Definition copy_of (x y : pyval) : Prop :=
  match x with
  | VRef _ => ∃ l', y = VRef l'
  | _ => y = x
  end.

(** Two dictionaries with the same keys whose values are copies of one
    another. *)
Definition dict_copy (d d' : gmap string pyval) : Prop :=
  ∀ k, option_Forall2 copy_of (d !! k) (d' !! k).

(** A copier that only extends the store, and one whose results are
    copies. *)
Definition extending (f : copier) : Prop :=
  ∀ x memo h y memo' h', f x memo h = Some (y, memo', h') → h ⊆ h'.

Definition faithful (f : copier) : Prop :=
  ∀ x memo h y memo' h', f x memo h = Some (y, memo', h') → copy_of x y.

(** A value that is no object of the store [h0], and a memo none of
    whose copies is: what a copier that never hands back an object of
    [h0] keeps up. *)
Definition outside (h0 : gmap loc obj) (v : pyval) : Prop :=
  match v with
  | VRef l => h0 !! l = None
  | _ => True
  end.

Definition memo_outside (h0 : gmap loc obj) (memo : gmap loc loc) : Prop :=
  ∀ l l', memo !! l = Some l' → h0 !! l' = None.

Definition separating (f : copier) : Prop :=
  ∀ h0 x memo h y memo' h',
    f x memo h = Some (y, memo', h') → h0 ⊆ h → memo_outside h0 memo →
    memo_outside h0 memo' ∧ outside h0 y.

End Py.

(** ** Input iterables *)

Module Iter.
Import Py.

(** What the adapter can observe of an argument of [*iterables]:
    whether [len] is defined, what [__length_hint__] says, and the items
    it yields.  [Sized] is a list, tuple or range; [Lazy] is a finite
    iterator or generator; [Endless] never stops (as [itertools.count]). *)
Inductive iterable :=
| Sized (xs : list pyval)
| Lazy (xs : list pyval) (hint : option nat)
| Endless (gen : nat → pyval) (hint : option nat).

(** The builtin [len]. *)
Definition len (it : iterable) : res nat :=
  match it with
  | Sized xs => Ok (length xs)
  | _ => Err TypeError
  end.

(** [operator.length_hint (it, default)]: [len] when defined, else
    [__length_hint__] when defined, else the default. *)
Definition operator_length_hint (it : iterable) (default : nat) : nat :=
  match it with
  | Sized xs => length xs
  | Lazy _ (Some n) | Endless _ (Some n) => n
  | _ => default
  end.

(** Number of items an iterable yields; [None] when it never stops. *)
Definition extent (it : iterable) : option nat :=
  match it with
  | Sized xs | Lazy xs _ => Some (length xs)
  | Endless _ _ => None
  end.

Definition item (it : iterable) (i : nat) : option pyval :=
  match it with
  | Sized xs | Lazy xs _ => xs !! i
  | Endless gen _ => Some (gen i)
  end.

(** [[seq[i] for seq in its]]: the argument tuple of the i-th call. *)
Definition row (its : list iterable) (i : nat) : list pyval :=
  omap (λ it, item it i) its.

(** Where the builtin [zip] stops: at the shortest finite argument;
    [None] when every argument is endless. *)
Fixpoint shortest (its : list iterable) : option nat :=
  match its with
  | [] => None
  | it :: rest =>
      match extent it, shortest rest with
      | Some n, Some m => Some (n `min` m)
      | Some n, None => Some n
      | None, r => r
      end
  end.

(** [zip( *its )] materialised: [Some] of the argument tuples, [None]
    when the zip never ends.  With no argument at all [zip()] is empty. *)
Definition zip_all (its : list iterable) : option (list (list pyval)) :=
  match its with
  | [] => Some []
  | _ => (λ n, row its <$> seq 0 n) <$> shortest its
  end.

End Iter.

(** ** The environment and the effect monad *)

Module Eff.
Import Py.

Inductive pool_kind := ThreadPoolExecutor | ProcessPoolExecutor.

Global Instance pool_kind_eq_dec : EqDecision pool_kind.
Proof. solve_decision. Defined.

(** The process-wide lock of a display class, and the bound classmethod
    [cls.set_lock] that installs one. *)
Inductive lock := ClassLock (c : class_id).
Inductive hook := SetLock (c : class_id).

(** The keyword arguments the adapter builds for the pool constructor:
    [dict(max_workers=...)], optionally updated with [initializer] and
    [initargs]. *)
Record pool_kwargs := PoolKwargs {
  max_workers : pyval;
  initializer : option hook;
  initargs : option (list lock)
}.

(** Which of the imports of lines 7-14 bound [cpu_count], and what the
    platform query answers ([None]: the count is undetermined). *)
Inductive cpu_source :=
| OsCpuCount (answer : option nat)
| MultiprocessingCpuCount (answer : option nat)
| NoCpuModule.

Record environment := Environment {
  (** [sys.version_info[:2]] *)
  version_info : nat * nat;
  cpu_module : cpu_source;
  (** whether [from operator import length_hint] succeeds (lines 15-22) *)
  has_length_hint : bool;
  (** nesting depth [copy.deepcopy] can descend before [RecursionError] *)
  recursion_limit : nat;
  (** the display constructor's own validation of the forwarded options *)
  display_check : class_id → gmap string pyval → option exn;
  (** when the i-th submitted task finishes on a pool built with the
      given arguments: the scheduler's choice *)
  finish_time : pool_kind → pool_kwargs → nat → nat
}.

(** Everything a call does that is visible from outside, in order. *)
Inductive event :=
| EWarn (category : string) (length : nat)
| ECpuCount
| EGetLock (c : class_id)
| EPoolInit (k : pool_kind) (kw : pool_kwargs)
| EPoolMap (k : pool_kind) (chunksize : pyval)
| EDisplayInit (c : class_id) (kw : gmap string pyval)
| EPoolShutdown (k : pool_kind).

Definition is_warning (ev : event) : bool :=
  match ev with
  | EWarn _ _ => true
  | _ => false
  end.

(** How many warnings a log holds. *)
Definition warnings (evs : list event) : nat :=
  length (List.filter is_warning evs).

(** The line of the adapter an event comes from, numbered in the order
    of the text: the warning of [process_map] (lines 86-94), then in
    [_executor_map] the default of [max_workers] (line 36), the lock
    (line 42), the pool (line 43), [ex.map] and the display (line 44),
    and the end of the [with] block. *)
Definition step (ev : event) : nat :=
  match ev with
  | EWarn _ _ => 0
  | ECpuCount => 1
  | EGetLock _ => 2
  | EPoolInit _ _ => 3
  | EPoolMap _ _ => 4
  | EDisplayInit _ _ => 5
  | EPoolShutdown _ => 6
  end.

Record state := State {
  heap : gmap loc obj;
  trace : list event
}.

(** How a call ends: with a value, with an exception, or never. *)
Inductive outcome (A : Type) :=
| Returns (a : A)
| Raises (e : exn)
| Hangs.
Global Arguments Returns {A} a.
Global Arguments Raises {A} e.
Global Arguments Hangs {A}.

Definition M (A : Type) : Type := state → outcome A * state.

Definition ret {A} (a : A) : M A := λ σ, (Returns a, σ).

Definition bind {A B} (m : M A) (k : A → M B) : M B :=
  λ σ, match m σ with
       | (Returns a, σ') => k a σ'
       | (Raises e, σ') => (Raises e, σ')
       | (Hangs, σ') => (Hangs, σ')
       end.

Definition raise {A} (e : exn) : M A := λ σ, (Raises e, σ).

Definition emit (ev : event) : M unit :=
  λ σ, (Returns (), State (heap σ) (trace σ ++ [ev])).

Definition get_heap : M (gmap loc obj) := λ σ, (Returns (heap σ), σ).
Definition put_heap (h : gmap loc obj) : M unit :=
  λ σ, (Returns (), State h (trace σ)).

Definition lift_res {A} (r : res A) : M A :=
  match r with
  | Ok a => ret a
  | Err e => raise e
  end.

Definition lift_outcome {A} (o : outcome A) : M A := λ σ, (o, σ).

(** Two state updates the proofs speak of: the dictionary at [l]
    replaced, and events appended to the log. *)
Definition set_dict (l : loc) (d : gmap string pyval) (σ : state) : state :=
  State (<[l := ODict d]> (heap σ)) (trace σ).

Definition log (evs : list event) (σ : state) : state :=
  State (heap σ) (trace σ ++ evs).

Definition lift_check (c : option exn) : M unit :=
  match c with
  | None => ret ()
  | Some e => raise e
  end.

End Eff.

Global Instance M_ret : MRet Eff.M := @Eff.ret.
Global Instance M_bind : MBind Eff.M := λ A B k m, Eff.bind m k.

(** ** Dictionaries in the store *)

Module Store.
Import Py Eff.

(** [copy.deepcopy(x)] for a container [x].  A copy that runs into the
    recursion limit raises and leaves the store as it was (what it had
    allocated is unreachable). *)
Definition py_deepcopy (env : environment) (l : loc) : M loc :=
  λ σ, match deepcopy (recursion_limit env) (VRef l) ∅ (heap σ) with
       | Some (VRef l', _, h') => (Returns l', State h' (trace σ))
       | Some _ => (Raises TypeError, σ)
       | None => (Raises RecursionError, σ)
       end.

Definition dict_read (l : loc) : M (gmap string pyval) :=
  h ← get_heap;
  match h !! l with
  | Some (ODict d) => mret d
  | _ => raise TypeError
  end.

(** [k in d] *)
Definition dict_contains (l : loc) (k : string) : M bool :=
  d ← dict_read l; mret (bool_decide (is_Some (d !! k))).

(** [d[k] = v] *)
Definition dict_setitem (l : loc) (k : string) (v : pyval) : M unit :=
  d ← dict_read l; h ← get_heap; put_heap (<[l := ODict (<[k := v]> d)]> h).

(** [d.pop(k, default)] *)
Definition dict_pop (l : loc) (k : string) (default : pyval) : M pyval :=
  d ← dict_read l;
  match d !! k with
  | Some v => h ← get_heap; put_heap (<[l := ODict (delete k d)]> h);; mret v
  | None => mret default
  end.

(** A new dictionary object with the given items. *)
Definition dict_new (d : gmap string pyval) : M loc :=
  h ← get_heap; put_heap (<[alloc h := ODict d]> h);; mret (alloc h).

(** A call [f( **d )] unpacks [d] into the callee's own dictionary. *)
Definition dict_unpack (l : loc) : M loc :=
  d ← dict_read l; dict_new d.

(** [warnings.warn(message.format(length), category)]: the warning goes
    to the warning channel and the caller carries on (a warning filter
    that turns warnings into errors is a setting of the interpreter, not
    of this module). *)
Definition warn (category : string) (length : nat) : M unit :=
  emit (EWarn category length).

(** Keyword arguments whose values [deepcopy] can copy from store [h]
    within the recursion limit: one level is spent on the dictionary
    itself. *)
Definition copyable (env : environment) (h : gmap loc obj)
    (options : gmap string pyval) : bool :=
  match recursion_limit env with
  | O => false
  | S n => forallb (nested_within h n) (map_to_list options).*2
  end.

(** [a >= b] on pairs of integers: Python compares tuples
    lexicographically. *)
Definition tuple_ge (a b : nat * nat) : bool :=
  (b.1 <? a.1) || ((a.1 =? b.1) && (b.2 <=? a.2)).

Definition py_add (v : pyval) (k : Z) : M pyval :=
  match v with
  | VInt z => mret (VInt (z + k))
  | VBool b => mret (VInt (Z.b2z b + k))
  | _ => raise TypeError
  end.

Definition py_min (k : Z) (v : pyval) : M pyval :=
  match v with
  | VInt z => mret (VInt (k `min` z))
  | VBool b => mret (VInt (k `min` Z.b2z b))
  | _ => raise TypeError
  end.

End Store.

(** ** The worker pools of [concurrent.futures]

    The pools belong to Python's standard library.  The model follows the
    library's [Executor.map]: every argument tuple of [zip( *iterables )] is
    submitted at once as a task, the workers finish the tasks in whatever
    order the scheduler decides, and the result iterator hands the results
    out in submission order, waiting for each.  The process pool batches
    the tuples with [_get_chunks], runs [_process_chunk] on each batch and
    chains the batch results. *)

Module Futures.
Import Py Iter Eff.

Record pool := Pool { kind : pool_kind; args : pool_kwargs }.

(** The constructors reject a worker count that is not positive; [None]
    asks for the library's own default.  (The further limit of 61 workers
    of the process pool on Windows is left out.) *)
Definition check_max_workers (v : pyval) : option exn :=
  match v with
  | VNone => None
  | VInt z => if decide (z ≤ 0)%Z then Some ValueError else None
  | VBool b => if b then None else Some ValueError
  | _ => Some TypeError
  end.

(** Both constructors take [initializer] and [initargs] from Python 3.7
    on, and not before. *)
Definition supports_initializer (env : environment) : bool :=
  Store.tuple_ge (version_info env) (3, 7).

(** [PoolExecutor( **pool_kwargs )] *)
Definition construct (k : pool_kind) (kw : pool_kwargs) : M pool :=
  emit (EPoolInit k kw);;
  lift_check (check_max_workers (max_workers kw));;
  mret (Pool k kw).

(** [ProcessPoolExecutor.map] starts with
    [if chunksize < 1: raise ValueError]. *)
Definition check_chunksize (v : pyval) : res nat :=
  match v with
  | VInt z => if decide (z < 1)%Z then Err ValueError else Ok (Z.to_nat z)
  | VBool b => if b then Ok 1 else Err ValueError
  | _ => Err TypeError
  end.

Fixpoint chunks_upto {A} (fuel n : nat) (l : list A) : list (list A) :=
  match fuel, l with
  | S fuel', _ :: _ => take n l :: chunks_upto fuel' n (drop n l)
  | _, _ => []
  end.

(** [_get_chunks]: consecutive batches of [n] tuples, the last one
    possibly shorter. *)
Definition _get_chunks {A} (n : nat) (l : list A) : list (list A) :=
  chunks_upto (length l) n l.

(** [_process_chunk]: [[fn( *args ) for args in chunk]]; the first
    exception ends the batch. *)
Fixpoint _process_chunk (fn : list pyval → res pyval)
    (chunk : list (list pyval)) : res (list pyval) :=
  match chunk with
  | [] => Ok []
  | a :: rest =>
      match fn a with
      | Err e => Err e
      | Ok v =>
          match _process_chunk fn rest with
          | Err e => Err e
          | Ok vs => Ok (v :: vs)
          end
      end
  end.

(** The order in which [n] submitted tasks finish, given their finish
    times. *)
Definition earlier (t : nat → nat) (i j : nat) : Prop := t i ≤ t j.

Global Instance earlier_dec t i j : Decision (earlier t i j).
Proof. unfold earlier. apply _. Defined.

Definition completion_order (t : nat → nat) (n : nat) : list nat :=
  merge_sort (earlier t) (seq 0 n).

(** The futures after the workers are done: task [i] of the order is
    run and its future is set. *)
Definition run_tasks {T R} (work : T → R) (tasks : list T)
    (order : list nat) : gmap nat R :=
  foldl (λ done i, match tasks !! i with
                   | Some t => <[i := work t]> done
                   | None => done
                   end) ∅ order.

(** A lazy, single-pass sequence: the items it yields and how it ends. *)
Inductive ending := Done | Fails (e : exn) | Blocks.

Record iterator (A : Type) := Iterator { items : list A; stop : ending }.
Global Arguments Iterator {A} items stop.
Global Arguments items {A} i.
Global Arguments stop {A} i.

(** [result_iterator]: [fs.pop().result()] for the futures in submission
    order.  An exception ends the iteration; a future that was never set
    blocks it. *)
Fixpoint result_iterator {A} (fs : list (option (res A))) : iterator A :=
  match fs with
  | [] => Iterator [] Done
  | Some (Ok a) :: rest =>
      let it := result_iterator rest in Iterator (a :: items it) (stop it)
  | Some (Err e) :: _ => Iterator [] (Fails e)
  | None :: _ => Iterator [] Blocks
  end.

(** [Executor.map] of the base class, for tasks already zipped. *)
Definition executor_map {T R} (env : environment) (ex : pool)
    (work : T → res R) (tasks : list T) : iterator R :=
  let n := length tasks in
  let order := completion_order (finish_time env (kind ex) (args ex)) n in
  let futures := run_tasks work tasks order in
  result_iterator ((λ i, futures !! i) <$> seq 0 n).

(** [_chain_from_iterable_of_lists] *)
Definition chain {A} (it : iterator (list A)) : iterator A :=
  Iterator (concat (items it)) (stop it).

(** What [ex.map(fn, *iterables, chunksize=chunksize)] comes to.  The
    thread pool ignores [chunksize]; the process pool checks it first.
    Submitting an endless zip never finishes. *)
Definition submit (env : environment) (ex : pool)
    (fn : list pyval → res pyval) (iterables : list iterable)
    (chunksize : pyval) : outcome (iterator pyval) :=
  match kind ex with
  | ThreadPoolExecutor =>
      match zip_all iterables with
      | None => Hangs
      | Some rows => Returns (executor_map env ex fn rows)
      end
  | ProcessPoolExecutor =>
      match check_chunksize chunksize with
      | Err e => Raises e
      | Ok n =>
          match zip_all iterables with
          | None => Hangs
          | Some rows =>
              Returns (chain (executor_map env ex (_process_chunk fn)
                                (_get_chunks n rows)))
          end
      end
  end.

Definition map (env : environment) (ex : pool)
    (fn : list pyval → res pyval) (iterables : list iterable)
    (chunksize : pyval) : M (iterator pyval) :=
  emit (EPoolMap (kind ex) chunksize);;
  lift_outcome (submit env ex fn iterables chunksize).

(** [with PoolExecutor( **pool_kwargs ) as ex: body]: the pool is shut
    down on the way out, whether the body returned or raised. *)
Definition shutdown_after {A} (k : pool_kind) (body : M A) : M A :=
  λ σ, match body σ with
       | (Hangs, σ') => (Hangs, σ')
       | (r, σ') => (r, State (heap σ') (trace σ' ++ [EPoolShutdown k]))
       end.

Definition with_pool {A} (k : pool_kind) (kw : pool_kwargs)
    (body : pool → M A) : M A :=
  ex ← construct k kw; shutdown_after k (body ex).

End Futures.

(** ** The progress display *)

Module Display.
Import Py Eff Futures.

(** Modelled from the spec: the default display class [tqdm.auto.tqdm]
    (module [tqdm.auto] is not part of the sources at hand); only its
    identity matters here. *)
Definition tqdm_auto : class_id := 0.

(** Modelled from the spec: the attribute [tqdm_class.set_lock] of a
    display class, the hook that installs a lock in a worker (classmethod
    of the display class, defined outside the sources at hand).  An
    object that is no class has no such attribute. *)
Definition set_lock (tqdm_class : pyval) : M hook :=
  match tqdm_class with
  | VClass c => mret (SetLock c)
  | _ => raise AttributeError
  end.

(** Modelled from the spec: [tqdm_class.get_lock()], which hands out the
    display class's one process-wide lock (classmethod of the display
    class, defined outside the sources at hand). *)
Definition get_lock (tqdm_class : pyval) : M lock :=
  match tqdm_class with
  | VClass c => emit (EGetLock c);; mret (ClassLock c)
  | _ => raise AttributeError
  end.

(** Modelled from the spec: the display constructor
    [tqdm_class(iterable, **kwargs)] (defined outside the sources at
    hand).  The display "wraps any iterable and renders incremental
    completion status as it is consumed": it validates its options
    itself and yields the wrapped items unchanged, one display unit per
    item; [total] configures the bar and nothing else. *)
Definition display (env : environment) (tqdm_class : pyval)
    (iterable : iterator pyval) (kwargs : gmap string pyval)
  : M (iterator pyval) :=
  match tqdm_class with
  | VClass c =>
      emit (EDisplayInit c kwargs);;
      lift_check (display_check env c kwargs);;
      mret iterable
  | _ => raise TypeError
  end.

(** The builtin [list] applied to a lazy sequence. *)
Definition drain {A} (it : iterator A) : outcome (list A) :=
  match stop it with
  | Done => Returns (items it)
  | Fails e => Raises e
  | Blocks => Hangs
  end.

Definition list_of {A} (it : iterator A) : M (list A) :=
  lift_outcome (drain it).

End Display.

(** ** The adapter: [tqdm/contrib/concurrent.py] *)

Module Concurrent.
Import Py Iter Eff Store Futures Display.

Section Adapter.
Context (env : environment).

(** Lines 7-14: [os.cpu_count], else [multiprocessing.cpu_count], else
    the constant function 4.  The first answers [None] when the count
    is undetermined, the second raises. *)
Definition cpu_count : M pyval :=
  emit ECpuCount;;
  match cpu_module env with
  | OsCpuCount (Some n) | MultiprocessingCpuCount (Some n) =>
      mret (VInt (Z.of_nat n))
  | OsCpuCount None => mret VNone
  | MultiprocessingCpuCount None => raise NotImplementedError
  | NoCpuModule => mret (VInt 4)
  end.

(** Lines 15-22: [operator.length_hint], else [len] with the default
    on [TypeError]. *)
Definition length_hint (it : iterable) (default : nat) : nat :=
  if has_length_hint env then operator_length_hint it default
  else match len it with
       | Ok n => n
       | Err _ => default
       end.

Definition _executor_map (PoolExecutor : pool_kind)
    (fn : list pyval → res pyval) (iterables : list iterable)
    (tqdm_kwargs : loc) : M (list pyval) :=
  kwargs ← py_deepcopy env tqdm_kwargs;
  has_total ← dict_contains kwargs "total";
  (if (has_total : bool) then ret ()
   else
     first ← lift_res (from_option Ok (Err IndexError) (iterables !! 0));
     n ← lift_res (len first);
     dict_setitem kwargs "total" (VInt (Z.of_nat n)));;
  tqdm_class ← dict_pop kwargs "tqdm_class" (VClass tqdm_auto);
  default ← (c ← cpu_count; s ← py_add c 4; py_min 32 s);
  max_workers ← dict_pop kwargs "max_workers" default;
  chunksize ← dict_pop kwargs "chunksize" (VInt 1);
  pool_kwargs ←
    (if tuple_ge (version_info env) (3, 7)
     then
       initializer ← set_lock tqdm_class;
       lock ← get_lock tqdm_class;
       mret (PoolKwargs max_workers (Some initializer) (Some [lock]))
     else mret (PoolKwargs max_workers None None));
  with_pool PoolExecutor pool_kwargs (λ ex,
    results ← map env ex fn iterables chunksize;
    options ← dict_read kwargs;
    bar ← display env tqdm_class results options;
    list_of bar).

(** Lines 47-62. *)
Definition thread_map (fn : list pyval → res pyval)
    (iterables : list iterable) (tqdm_kwargs : loc) : M (list pyval) :=
  packed ← dict_unpack tqdm_kwargs;
  _executor_map ThreadPoolExecutor fn iterables packed.

(** Lines 65-95. *)
Definition process_map (fn : list pyval → res pyval)
    (iterables : list iterable) (tqdm_kwargs : loc) : M (list pyval) :=
  unset ← (if bool_decide (iterables = []) then ret false
           else has ← dict_contains tqdm_kwargs "chunksize";
                mret (negb has));
  (if (unset : bool) then
     let longest_iterable_len :=
       max_list ((λ it, length_hint it 0) <$> iterables) in
     if decide (1000 ≤ longest_iterable_len)
     then warn "RuntimeWarning" longest_iterable_len
     else ret ()
   else ret ());;
  packed ← dict_unpack tqdm_kwargs;
  _executor_map ProcessPoolExecutor fn iterables packed.

(** The adapter by pool kind: [thread_map] or [process_map]. *)
Definition adapter (k : pool_kind) :=
  match k with
  | ThreadPoolExecutor => thread_map
  | ProcessPoolExecutor => process_map
  end.

(** The call [thread_map(fn, *iterables, **options)] (or
    [process_map]) issued in store [h] with an empty event log: the
    interpreter packs the keyword arguments into a new dictionary
    [tqdm_kwargs]. *)
Definition call (k : pool_kind) (fn : list pyval → res pyval)
    (iterables : list iterable) (options : gmap string pyval)
    (h : gmap loc obj) : outcome (list pyval) * state :=
  (tqdm_kwargs ← dict_new options; adapter k fn iterables tqdm_kwargs)
    (State h []).

End Adapter.
End Concurrent.

(** ** The calls, store aside

    What a call does as a function of the contents of the copied
    dictionary: its outcome and its events.  [Facts.executor_map_run]
    shows that [_executor_map] does just this. *)

Module Summary.
Import Py Iter Eff Store Futures Display.

Section Summary.
Context (env : environment).

(** Lines 33-34. *)
Definition with_total (iterables : list iterable)
    (d : gmap string pyval) : res (gmap string pyval) :=
  if decide (is_Some (d !! "total")) then Ok d
  else match iterables !! 0 with
       | None => Err IndexError
       | Some first =>
           match len first with
           | Ok n => Ok (<["total" := VInt (Z.of_nat n)]> d)
           | Err e => Err e
           end
       end.

(** [min(32, cpu_count() + 4)] *)
Definition default_max_workers : res pyval :=
  match cpu_module env with
  | OsCpuCount (Some n) | MultiprocessingCpuCount (Some n) =>
      Ok (VInt (32 `min` (Z.of_nat n + 4)))
  | OsCpuCount None => Err TypeError
  | MultiprocessingCpuCount None => Err NotImplementedError
  | NoCpuModule => Ok (VInt (32 `min` (4 + 4)))
  end.

(** Lines 38-42: the pool arguments, and the events of building
    them. *)
Definition pool_arguments (tqdm_class max_workers : pyval)
  : res (pool_kwargs * list event) :=
  if tuple_ge (version_info env) (3, 7) then
    match tqdm_class with
    | VClass c =>
        Ok (PoolKwargs max_workers (Some (SetLock c))
              (Some [ClassLock c]), [EGetLock c])
    | _ => Err AttributeError
    end
  else Ok (PoolKwargs max_workers None None, []).

(** Lines 43-44, once the pool exists. *)
Definition in_pool (k : pool_kind) (pk : pool_kwargs)
    (fn : list pyval → res pyval) (iterables : list iterable)
    (tqdm_class chunksize : pyval) (options : gmap string pyval)
  : outcome (list pyval) * list event :=
  match submit env (Pool k pk) fn iterables chunksize with
  | Raises e => (Raises e, [EPoolMap k chunksize; EPoolShutdown k])
  | Hangs => (Hangs, [EPoolMap k chunksize])
  | Returns results =>
      match tqdm_class with
      | VClass c =>
          match display_check env c options with
          | Some e =>
              (Raises e, [EPoolMap k chunksize; EDisplayInit c options;
                          EPoolShutdown k])
          | None =>
              match drain results with
              | Hangs =>
                  (Hangs, [EPoolMap k chunksize; EDisplayInit c options])
              | r =>
                  (r, [EPoolMap k chunksize; EDisplayInit c options;
                       EPoolShutdown k])
              end
          end
      | _ => (Raises TypeError, [EPoolMap k chunksize; EPoolShutdown k])
      end
  end.

(** Lines 35-44, on the dictionary that has its [total]. *)
Definition resolved (k : pool_kind) (fn : list pyval → res pyval)
    (iterables : list iterable) (d : gmap string pyval)
  : outcome (list pyval) * list event :=
  let tqdm_class := default (VClass tqdm_auto) (d !! "tqdm_class") in
  match default_max_workers with
  | Err e => (Raises e, [ECpuCount])
  | Ok n =>
      let max_workers := default n (d !! "max_workers") in
      let chunksize := default (VInt 1) (d !! "chunksize") in
      let options :=
        delete "chunksize"
          (delete "max_workers" (delete "tqdm_class" d)) in
      match pool_arguments tqdm_class max_workers with
      | Err e => (Raises e, [ECpuCount])
      | Ok (pk, evs) =>
          match check_max_workers max_workers with
          | Some e => (Raises e, ECpuCount :: evs ++ [EPoolInit k pk])
          | None =>
              let r := in_pool k pk fn iterables tqdm_class
                         chunksize options in
              (r.1, ECpuCount :: evs ++ EPoolInit k pk :: r.2)
          end
      end
  end.

Definition executor_map (k : pool_kind) (fn : list pyval → res pyval)
    (iterables : list iterable) (d : gmap string pyval)
  : outcome (list pyval) * list event :=
  match with_total iterables d with
  | Err e => (Raises e, [])
  | Ok d1 => resolved k fn iterables d1
  end.

(** Lines 83-94: the warning of [process_map]. *)
Definition warning (k : pool_kind) (iterables : list iterable)
    (d : gmap string pyval) : list event :=
  match k with
  | ThreadPoolExecutor => []
  | ProcessPoolExecutor =>
      if bool_decide (iterables = []) then []
      else if decide (is_Some (d !! "chunksize")) then []
      else
        let n := max_list ((λ it, Concurrent.length_hint env it 0)
                             <$> iterables) in
        if decide (1000 ≤ n) then [EWarn "RuntimeWarning" n] else []
  end.

(** The map as [Executor.map] performs it, scheduling aside: every
    argument tuple is taken from the zip first (all tasks are submitted
    before a result is asked for), then the results are handed out in
    order, up to the first exception.  An unbounded zip never gets as far
    as [fn].  [FuturesFacts.submit_returns] and
    [SummaryFacts.executor_map_total] show that this is what the pools
    and [list] make of a call. *)
Definition eager_map (fn : list pyval → res pyval)
    (iterables : list iterable) : outcome (list pyval) :=
  match zip_all iterables with
  | None => Hangs
  | Some rows =>
      match _process_chunk fn rows with
      | Ok values => Returns values
      | Err e => Raises e
      end
  end.

(** *** Calls that get as far as the pool and the display *)

(** [total] is given, or the first iterable has a [len]. *)
Definition total_known (iterables : list iterable)
    (options : gmap string pyval) : bool :=
  match options !! "total", iterables !! 0 with
  | Some _, _ | None, Some (Sized _) => true
  | _, _ => false
  end.

(** [cpu_count()] answers with a number. *)
Definition cpu_known : bool :=
  match default_max_workers with
  | Ok _ => true
  | Err _ => false
  end.

(** [tqdm_class] is left out or is a class. *)
Definition class_given (options : gmap string pyval) : bool :=
  match options !! "tqdm_class" with
  | None | Some (VClass _) => true
  | _ => false
  end.

(** [max_workers] is left out or is one the pool constructor takes. *)
Definition workers_valid (options : gmap string pyval) : bool :=
  match options !! "max_workers" with
  | None => true
  | Some v => bool_decide (check_max_workers v = None)
  end.

(** [chunksize] is left out or is one [ProcessPoolExecutor.map]
    takes; the thread pool takes any. *)
Definition chunksize_valid (k : pool_kind)
    (options : gmap string pyval) : bool :=
  match k, options !! "chunksize" with
  | ThreadPoolExecutor, _ | _, None => true
  | ProcessPoolExecutor, Some v =>
      match check_chunksize v with
      | Ok _ => true
      | Err _ => false
      end
  end.

Definition well_configured (k : pool_kind) (iterables : list iterable)
    (options : gmap string pyval) (h : gmap loc obj) : bool :=
  copyable env h options && total_known iterables options && cpu_known
  && class_given options && workers_valid options
  && chunksize_valid k options.

(** The display takes whatever options it is handed. *)
Definition accepting : Prop :=
  ∀ c options, display_check env c options = None.

End Summary.
End Summary.

(** ** The reference: the docstrings' [list(map(fn, *iterables))]

    The builtin [map] is lazy.  Each time [list] asks it for an element,
    [map] takes the next argument tuple from the zip, which ends with the
    shortest iterable, and applies [fn] to it; so [fn] is reached also
    where the zip is unbounded, and the first exception of [fn] ends the
    map.  With no iterable at all [map] is a [TypeError]. *)

Module Reference.
Import Py Iter Eff.

(** [list] asking up to [steps] times, from tuple [i] on, of a zip that
    ends at [stop]: [None] when it is still asking. *)
Fixpoint map_from (fn : list pyval → res pyval) (its : list iterable)
    (stop : option nat) (i steps : nat) : option (res (list pyval)) :=
  match steps with
  | O => None
  | S steps' =>
      if decide (stop = Some i) then Some (Ok [])
      else match fn (row its i) with
           | Err e => Some (Err e)
           | Ok v =>
               match map_from fn its stop (S i) steps' with
               | Some (Ok vs) => Some (Ok (v :: vs))
               | r => r
               end
           end
  end.

Definition list_map_within (steps : nat) (fn : list pyval → res pyval)
    (its : list iterable) : option (outcome (list pyval)) :=
  match its with
  | [] => Some (Raises TypeError)
  | _ =>
      match map_from fn its (shortest its) 0 steps with
      | Some (Ok values) => Some (Returns values)
      | Some (Err e) => Some (Raises e)
      | None => None
      end
  end.

(** How [list(map(fn, *iterables))] ends: the way it has ended after
    some number of steps, or never. *)
Definition list_map (fn : list pyval → res pyval) (its : list iterable)
    (o : outcome (list pyval)) : Prop :=
  (∃ steps, list_map_within steps fn its = Some o) ∨
  (o = Hangs ∧ ∀ steps, list_map_within steps fn its = None).

End Reference.

(** ** Sample calls *)

Module Sample.
Import Py Iter Eff Store Futures Display.

(** Python 3.8 on eight cores, with a scheduler that finishes the first
    ten tasks in reverse order. *)
Definition env : environment :=
  Environment (3, 8) (OsCpuCount (Some 8)) true 1000
    (λ _ _, None) (λ _ _ i, 10 - i).

(** The same machine when [os.cpu_count()] cannot tell. *)
Definition env_unknown_cpu : environment :=
  Environment (3, 8) (OsCpuCount None) true 1000
    (λ _ _, None) (λ _ _ i, 10 - i).

(** Python 3.3 on four cores, where neither [os.cpu_count] nor
    [operator.length_hint] exists yet. *)
Definition env_legacy : environment :=
  Environment (3, 3) (MultiprocessingCpuCount (Some 4)) false 1000
    (λ _ _, None) (λ _ _ i, i).

(** The same machine when [multiprocessing.cpu_count()] cannot tell. *)
Definition env_legacy_unknown_cpu : environment :=
  Environment (3, 3) (MultiprocessingCpuCount None) false 1000
    (λ _ _, None) (λ _ _ i, i).

(** [lambda x, y: x + y], which raises on anything but two integers and
    on a first argument of 3. *)
Definition add (args : list pyval) : res pyval :=
  match args with
  | [VInt x; VInt y] =>
      if decide (x = 3)%Z then Err (UserError 7) else Ok (VInt (x + y))
  | _ => Err TypeError
  end.

(** [lambda x: 2 * x] *)
Definition double (args : list pyval) : res pyval :=
  match args with
  | [VInt x] => Ok (VInt (2 * x))
  | _ => Err TypeError
  end.

Definition ints (zs : list Z) : list pyval := VInt <$> zs.

Definition units : list pyval := ints [1; 2]%Z.
Definition tens : list pyval := ints [10; 20]%Z.

Definition three : iterable := Sized (ints [1; 2; 3]%Z).

(** [desc="bar"] *)
Definition described : gmap string pyval := {[ "desc" := VStr "bar" ]}.

(** A caller's store: the keyword dictionary, one of whose values is a
    list. *)
Definition tqdm_kwargs : gmap string pyval :=
  {[ "max_workers" := VInt 2; "postfix" := VRef 1 ]}.

Definition caller : state :=
  State {[ 0 := ODict tqdm_kwargs; 1 := OList [VStr "loss"] ]} [].

Definition pairs : list (list pyval) := [units; tens].

(** [max_workers=3, chunksize=2] *)
Definition tuned : gmap string pyval :=
  {[ "max_workers" := VInt 3; "chunksize" := VInt 2 ]}.

(** [chunksize=2] *)
Definition chunked : gmap string pyval := {[ "chunksize" := VInt 2 ]}.

(** [total=7, chunksize=5] *)
Definition counted : gmap string pyval :=
  {[ "total" := VInt 7; "chunksize" := VInt 5 ]}.

(** [tqdm_class=C], for a display class [C] of the caller's. *)
Definition with_class : gmap string pyval := {[ "tqdm_class" := VClass 5 ]}.

(** Two sequences on whose second elements [add] raises. *)
Definition failing : list iterable :=
  [Sized (ints [1; 3; 5]%Z); Sized (ints [10; 30; 50]%Z)].

Definition five : list iterable := [Sized (ints [1; 2; 4; 5; 6]%Z)].

(** [itertools.count()] *)
Definition count : iterable := Endless (λ i, VInt (Z.of_nat i)) None.

(** A generator of two items next to [itertools.count()]. *)
Definition mixed : list iterable := [Lazy tens None; count].

(** A generator of one item that announces a thousand. *)
Definition announced : list iterable := [Lazy (ints [5]%Z) (Some 1000)].

(** [postfix=p], for the list [p] of the caller's store. *)
Definition postfixed : gmap string pyval := {[ "postfix" := VRef 1 ]}.

End Sample.

(** * Properties *)

(** ** The deep copy *)

Module PyFacts.
Import Py.

Lemma alloc_fresh (h : gmap loc obj) : h !! alloc h = None.
Proof. pose proof (is_fresh (dom h)) as H. by apply not_elem_of_dom in H. Qed.

Lemma copy_each_extending f xs :
  extending f → ∀ memo h ys memo' h',
  copy_each f xs memo h = Some (ys, memo', h') → h ⊆ h'.
Proof.
  intros Hf. induction xs as [|x xs IH]; simpl; intros memo h ys memo' h' H.
  - by simplify_eq.
  - destruct (f x memo h) as [[[y m1] h1]|] eqn:Hx; [|done].
    destruct (copy_each f xs m1 h1) as [[[zs m2] h2]|] eqn:Hxs; [|done].
    simplify_eq. etrans; [by eapply Hf | by eapply IH].
Qed.

Lemma copy_each_faithful f xs :
  faithful f → ∀ memo h ys memo' h',
  copy_each f xs memo h = Some (ys, memo', h') → Forall2 copy_of xs ys.
Proof.
  intros Hf. induction xs as [|x xs IH]; simpl; intros memo h ys memo' h' H.
  - simplify_eq. constructor.
  - destruct (f x memo h) as [[[y m1] h1]|] eqn:Hx; [|done].
    destruct (copy_each f xs m1 h1) as [[[zs m2] h2]|] eqn:Hxs; [|done].
    simplify_eq. constructor; [by eapply Hf | by eapply IH].
Qed.

Lemma deepcopy_extending fuel : extending (deepcopy fuel).
Proof.
  induction fuel as [|fuel IH]; intros v memo h y memo' h' H;
    destruct v as [| | | | |l]; simpl in H; try by simplify_eq.
  - destruct (memo !! l); by simplify_eq.
  - destruct (memo !! l); [by simplify_eq|].
    destruct (h !! l) as [[xs|d]|] eqn:Hl; [| |by simplify_eq].
    + destruct (copy_each _ _ _ _) as [[[ys m1] h1]|] eqn:Hc; [|done].
      simplify_eq. apply copy_each_extending in Hc; [|done].
      apply insert_subseteq_r; [apply alloc_fresh|].
      etrans; [|exact Hc]. apply insert_subseteq, alloc_fresh.
    + destruct (copy_each _ _ _ _) as [[[ys m1] h1]|] eqn:Hc; [|done].
      simplify_eq. apply copy_each_extending in Hc; [|done].
      apply insert_subseteq_r; [apply alloc_fresh|].
      etrans; [|exact Hc]. apply insert_subseteq, alloc_fresh.
Qed.

Lemma deepcopy_faithful fuel : faithful (deepcopy fuel).
Proof.
  intros v memo h y memo' h' H.
  destruct fuel, v as [| | | | |l]; simpl in H; simplify_eq; try done;
    simpl; destruct (memo !! l); simplify_eq; eauto.
  destruct (h !! l) as [[xs|d]|]; simplify_eq; eauto;
    destruct (copy_each _ _ _ _) as [[[ys m1] h1]|]; simplify_eq; eauto.
Qed.

Lemma copy_each_succeeds f xs h :
  extending f →
  (∀ x, In x xs → ∀ memo hc, h ⊆ hc → is_Some (f x memo hc)) →
  ∀ memo hc, h ⊆ hc → is_Some (copy_each f xs memo hc).
Proof.
  intros Hext. induction xs as [|x xs IH]; simpl; intros Hf memo hc Hsub.
  - eauto.
  - destruct (Hf x (or_introl eq_refl) memo hc Hsub) as [[[y m1] h1] Hx].
    rewrite Hx.
    destruct (IH (λ z Hz, Hf z (or_intror Hz)) m1 h1) as [[[ys m2] h2] Hxs].
    { etrans; [exact Hsub | by eapply Hext]. }
    rewrite Hxs. eauto.
Qed.

(** Within the recursion limit the copy always completes. *)
Lemma deepcopy_succeeds n : ∀ v h hc memo,
  nested_within h n v = true → h ⊆ hc → is_Some (deepcopy n v memo hc).
Proof.
  induction n as [|n IH]; intros v h hc memo Hn Hsub;
    destruct v as [| | | | |l]; simpl in *; eauto; try done.
  destruct (memo !! l); [eauto|].
  destruct (h !! l) as [[xs|d]|] eqn:Hl; [| |done];
    rewrite (lookup_weaken _ _ _ _ Hl Hsub).
  - assert (is_Some (copy_each (deepcopy n) xs (<[l:=alloc hc]> memo)
                       (<[alloc hc:=OList []]> hc))) as [[[ys m1] h1] Hc].
    { apply copy_each_succeeds with (h := h).
      - apply deepcopy_extending.
      - intros x Hx m' hc' Hsub'. eapply IH; [|done].
        by eapply forallb_forall in Hn.
      - etrans; [exact Hsub|]. apply insert_subseteq, alloc_fresh. }
    rewrite Hc. eauto.
  - assert (is_Some (copy_each (deepcopy n) (map_to_list d).*2
                       (<[l:=alloc hc]> memo)
                       (<[alloc hc:=ODict ∅]> hc))) as [[[ys m1] h1] Hc].
    { apply copy_each_succeeds with (h := h).
      - apply deepcopy_extending.
      - intros x Hx m' hc' Hsub'. eapply IH; [|done].
        by eapply forallb_forall in Hn.
      - etrans; [exact Hsub|]. apply insert_subseteq, alloc_fresh. }
    rewrite Hc. eauto.
Qed.

Lemma nested_within_mono n : ∀ v h h',
  h ⊆ h' → nested_within h n v = true → nested_within h' n v = true.
Proof.
  induction n as [|n IH]; intros v h h' Hsub Hn;
    destruct v as [| | | | |l]; simpl in *; try done.
  destruct (h !! l) as [[xs|d]|] eqn:Hl; [| |done];
    rewrite (lookup_weaken _ _ _ _ Hl Hsub);
    apply forallb_forall; intros x Hx; apply (IH x h h' Hsub);
    by eapply forallb_forall in Hn.
Qed.

Lemma list_to_map_zip_copy (ks : list string) : ∀ xs ys,
  Forall2 copy_of xs ys →
  dict_copy (list_to_map (zip ks xs)) (list_to_map (zip ks ys)).
Proof.
  induction ks as [|k0 ks IH]; intros xs ys H k; simpl.
  - rewrite !lookup_empty. constructor.
  - destruct H as [|x y xs ys Hxy H]; simpl.
    + rewrite !lookup_empty. constructor.
    + rewrite !lookup_insert. case_decide; [by constructor|by apply IH].
Qed.

(** The deep copy of a dictionary is a new dictionary with copies of
    the values, and every object that existed before is as it was. *)
Lemma deepcopy_dict fuel l d h v' memo' h' :
  h !! l = Some (ODict d) →
  deepcopy fuel (VRef l) ∅ h = Some (v', memo', h') →
  v' = VRef (alloc h) ∧ h ⊆ h' ∧
  ∃ d', h' !! alloc h = Some (ODict d') ∧ dict_copy d d'.
Proof.
  intros Hl H. pose proof (deepcopy_extending _ _ _ _ _ _ _ H) as Hext.
  destruct fuel as [|fuel]; simpl in H; rewrite lookup_empty in H; [done|].
  rewrite Hl in H.
  destruct (copy_each _ _ _ _) as [[[ys m1] h1]|] eqn:Hc; [|done].
  simplify_eq. split; [done|]. split; [done|].
  eexists. split; [apply lookup_insert_eq|].
  apply copy_each_faithful in Hc; [|apply deepcopy_faithful].
  pose proof (list_to_map_zip_copy (map_to_list d).*1 _ _ Hc) as Hd.
  by rewrite zip_fst_snd, list_to_map_to_list in Hd.
Qed.

Lemma dict_copy_None d d' k : dict_copy d d' → d !! k = None → d' !! k = None.
Proof. intros H Hk. specialize (H k). rewrite Hk in H. by inversion H. Qed.

Lemma dict_copy_Some d d' k v :
  dict_copy d d' → d !! k = Some v → ∃ v', d' !! k = Some v' ∧ copy_of v v'.
Proof. intros H Hk. specialize (H k). rewrite Hk in H. inversion H; eauto. Qed.

End PyFacts.

(** ** The adapter, step by step *)

Module Facts.
Import Py Iter Eff Store Futures Display Concurrent PyFacts.

Lemma bind_run {A B} (m : M A) (k : A → M B) σ :
  (m ≫= k) σ = match m σ with
                | (Returns a, σ') => k a σ'
                | (Raises e, σ') => (Raises e, σ')
                | (Hangs, σ') => (Hangs, σ')
                end.
Proof. reflexivity. Qed.

Lemma set_dict_id l d σ : heap σ !! l = Some (ODict d) → set_dict l d σ = σ.
Proof. intros H. destruct σ as [h t]. unfold set_dict; simpl in *. by rewrite insert_id. Qed.

Lemma set_dict_set_dict l d d' σ : set_dict l d (set_dict l d' σ) = set_dict l d σ.
Proof. unfold set_dict; simpl. by rewrite insert_insert_eq. Qed.

Lemma heap_set_dict l d σ : heap (set_dict l d σ) !! l = Some (ODict d).
Proof. apply lookup_insert_eq. Qed.

Lemma dict_read_run l d σ :
  heap σ !! l = Some (ODict d) → dict_read l σ = (Returns d, σ).
Proof. intros H. unfold dict_read. rewrite bind_run. simpl. by rewrite H. Qed.

Lemma dict_contains_run l k d σ :
  heap σ !! l = Some (ODict d) →
  dict_contains l k σ = (Returns (bool_decide (is_Some (d !! k))), σ).
Proof. intros H. unfold dict_contains. by rewrite bind_run, (dict_read_run _ _ _ H). Qed.

Lemma dict_setitem_run l k v d σ :
  heap σ !! l = Some (ODict d) →
  dict_setitem l k v σ = (Returns (), set_dict l (<[k := v]> d) σ).
Proof. intros H. unfold dict_setitem. by rewrite bind_run, (dict_read_run _ _ _ H). Qed.

Lemma dict_pop_run l k v d σ :
  heap σ !! l = Some (ODict d) →
  dict_pop l k v σ = (Returns (default v (d !! k)), set_dict l (delete k d) σ).
Proof.
  intros H. unfold dict_pop. rewrite bind_run, (dict_read_run _ _ _ H).
  destruct (d !! k) eqn:Hk; simpl; [done|].
  rewrite delete_id by done. by rewrite set_dict_id.
Qed.

Lemma log_log e1 e2 σ : log e2 (log e1 σ) = log (e1 ++ e2) σ.
Proof. unfold log; simpl. by rewrite <-app_assoc. Qed.

Lemma log_nil σ : log [] σ = σ.
Proof. destruct σ. unfold log; simpl. by rewrite app_nil_r. Qed.

Lemma emit_run ev σ : emit ev σ = (Returns (), log [ev] σ).
Proof. reflexivity. Qed.




Lemma set_dict_log l d evs σ : set_dict l d (log evs σ) = log evs (set_dict l d σ).
Proof. reflexivity. Qed.

Lemma heap_log_set_dict l d evs σ :
  heap (log evs (set_dict l d σ)) !! l = Some (ODict d).
Proof. apply lookup_insert_eq. Qed.

Ltac leaf :=
  eexists; unfold log, set_dict; simpl; rewrite <- ?app_assoc; simpl;
  reflexivity.

Ltac pop_step :=
  rewrite bind_run;
  first [ rewrite (dict_pop_run _ _ _ _ _ (heap_set_dict _ _ _))
        | rewrite (dict_pop_run _ _ _ _ _ (heap_log_set_dict _ _ _ _)) ];
  rewrite ?set_dict_log, ?set_dict_set_dict; cbv beta iota.

Lemma executor_map_rest env kind fn its l σ l' σ1 d' :
  py_deepcopy env l σ = (Returns l', σ1) →
  heap σ1 !! l' = Some (ODict d') →
  ∃ dfin, _executor_map env kind fn its l σ =
    ((Summary.executor_map env kind fn its d').1,
     log (Summary.executor_map env kind fn its d').2 (set_dict l' dfin σ1)).
Proof.
  intros Hcopy Hd. unfold _executor_map. rewrite bind_run, Hcopy.
  rewrite bind_run, (dict_contains_run _ _ _ _ Hd).
  unfold Summary.executor_map, Summary.with_total.
  rewrite bind_run.
  match goal with
  | |- context [ dict_pop l' "tqdm_class" ?v ≫= ?k ] =>
      set (tail := dict_pop l' "tqdm_class" v ≫= k)
  end.
  assert (∀ d1, ∃ dfin, tail (set_dict l' d1 σ1) =
            ((Summary.resolved env kind fn its d1).1,
             log (Summary.resolved env kind fn its d1).2
               (set_dict l' dfin σ1))) as Htail.
  { intros d1. subst tail. pop_step.
    unfold Summary.resolved.
    set (tc := default (VClass tqdm_auto) (d1 !! "tqdm_class")).
    rewrite bind_run. unfold cpu_count at 1. rewrite !bind_run, emit_run. cbv beta iota.
    unfold Summary.default_max_workers.
    destruct (cpu_module env) as [[n|]|[n|]|]; simpl; try leaf.
    all: do 2 pop_step; rewrite !lookup_delete_ne by done.
    all: set (mw := default _ (d1 !! "max_workers")).
    all: set (cs := default _ (d1 !! "chunksize")).
    all: set (opts := delete "chunksize" _).
    all: unfold Summary.pool_arguments; rewrite bind_run.
    all: destruct (tuple_ge (version_info env) (3, 7)).
    all: destruct tc as [| | | |c|]; simpl; try leaf.
    all: unfold with_pool, construct; rewrite ?bind_run, ?emit_run; cbv beta iota; simpl max_workers.
    all: destruct (check_max_workers mw); simpl; try leaf.
    all: unfold shutdown_after, map; rewrite ?bind_run, ?emit_run; cbv beta iota.
    all: unfold Summary.in_pool, lift_outcome.
    all: destruct (submit _ _ _ _ _) as [results|e|]; simpl; try leaf.
    all: rewrite bind_run; erewrite dict_read_run by (simpl; apply lookup_insert_eq).
    all: simpl; try leaf.
    all: destruct (display_check env c opts); simpl; try leaf.
    all: unfold drain; destruct (stop results); simpl; try leaf. }
  clearbody tail.
  destruct (decide (is_Some (d' !! "total"))) as [Ht|Ht].
  - rewrite bool_decide_eq_true_2 by done. simpl.
    destruct (Htail d') as [dfin Hfin].
    rewrite (set_dict_id _ _ _ Hd) in Hfin. by exists dfin.
  - rewrite bool_decide_eq_false_2 by done.
    destruct (its !! 0) as [first|]; simpl.
    + destruct first as [xs|xs hint|gen hint]; simpl.
      * rewrite bind_run. unfold ret at 1. cbv beta iota.
        rewrite bind_run. simpl (lift_res _). unfold ret at 1. cbv beta iota.
        rewrite (dict_setitem_run _ _ _ _ _ Hd). apply Htail.
      * exists d'. by rewrite (set_dict_id _ _ _ Hd), log_nil.
      * exists d'. by rewrite (set_dict_id _ _ _ Hd), log_nil.
    + exists d'. by rewrite (set_dict_id _ _ _ Hd), log_nil.
Qed.

Lemma py_deepcopy_dict env l σ d :
  heap σ !! l = Some (ODict d) →
  (py_deepcopy env l σ = (Raises RecursionError, σ) ∧
   nested_within (heap σ) (recursion_limit env) (VRef l) = false) ∨
  ∃ h' d', py_deepcopy env l σ =
             (Returns (alloc (heap σ)), State h' (trace σ)) ∧
           heap σ ⊆ h' ∧ h' !! alloc (heap σ) = Some (ODict d') ∧
           dict_copy d d'.
Proof.
  intros Hl. unfold py_deepcopy.
  destruct (deepcopy _ _ _ _) as [[[v m] h']|] eqn:Hc.
  - right. destruct (deepcopy_dict _ _ _ _ _ _ _ Hl Hc)
      as (-> & Hsub & d' & Hd' & Hcopy).
    by exists h', d'.
  - left. split; [done|].
    destruct (nested_within _ _ _) eqn:Hn; [|done].
    destruct (deepcopy_succeeds _ _ _ (heap σ) ∅ Hn) as [? Hs]; [done|].
    congruence.
Qed.

(** [_executor_map] does what the summary says, in a store that only
    grew. *)
Lemma executor_map_run env kind fn its l σ d :
  heap σ !! l = Some (ODict d) →
  ∃ hf, heap σ ⊆ hf ∧
    ((_executor_map env kind fn its l σ =
        (Raises RecursionError, State hf (trace σ)) ∧
      nested_within (heap σ) (recursion_limit env) (VRef l) = false) ∨
     ∃ d', dict_copy d d' ∧
       _executor_map env kind fn its l σ =
         ((Summary.executor_map env kind fn its d').1,
          State hf (trace σ ++ (Summary.executor_map env kind fn its d').2))).
Proof.
  intros Hl.
  destruct (py_deepcopy_dict env l σ d Hl)
    as [[Hc Hn]|(h' & d' & Hc & Hsub & Hd' & Hcopy)].
  - exists (heap σ). split; [done|]. left. split; [|done].
    unfold _executor_map. rewrite bind_run, Hc. by destruct σ.
  - destruct (executor_map_rest env kind fn its l σ _ _ d' Hc Hd')
      as [dfin Hrun].
    exists (<[alloc (heap σ) := ODict dfin]> h'). split.
    + apply insert_subseteq_r; [apply alloc_fresh|done].
    + right. exists d'. split; [done|]. by rewrite Hrun.
Qed.

Lemma copyable_nested env h d h' l :
  copyable env h d = true → h ⊆ h' → h' !! l = Some (ODict d) →
  nested_within h' (recursion_limit env) (VRef l) = true.
Proof.
  unfold copyable. intros Hc Hsub Hl.
  destruct (recursion_limit env) as [|n]; [done|]. simpl. rewrite Hl.
  apply forallb_forall. intros x Hx.
  apply (nested_within_mono n x h h' Hsub).
  by eapply forallb_forall in Hc.
Qed.

Lemma dict_new_run d σ :
  dict_new d σ = (Returns (alloc (heap σ)), set_dict (alloc (heap σ)) d σ).
Proof. reflexivity. Qed.

Lemma dict_unpack_run l d σ :
  heap σ !! l = Some (ODict d) →
  dict_unpack l σ = (Returns (alloc (heap σ)), set_dict (alloc (heap σ)) d σ).
Proof.
  intros H. unfold dict_unpack. by rewrite bind_run, (dict_read_run _ _ _ H).
Qed.

Lemma set_dict_fresh_subseteq d σ : heap σ ⊆ heap (set_dict (alloc (heap σ)) d σ).
Proof. apply insert_subseteq, alloc_fresh. Qed.

(** The warning step of [process_map] logs the warning, if any, and
    does nothing else. *)
Lemma warning_run env fn its l d σ :
  heap σ !! l = Some (ODict d) →
  process_map env fn its l σ =
    (packed ← dict_unpack l;
     _executor_map env ProcessPoolExecutor fn its packed)
      (log (Summary.warning env ProcessPoolExecutor its d) σ).
Proof.
  intros Hl. unfold process_map, Summary.warning. rewrite bind_run.
  case_bool_decide.
  - unfold ret at 1. cbv beta iota. rewrite bind_run.
    unfold ret at 1. cbv beta iota. by rewrite log_nil.
  - rewrite bind_run, (dict_contains_run _ _ _ _ Hl). cbv beta iota.
    unfold mret, M_ret, ret at 1. cbv beta iota. rewrite bind_run.
    destruct (decide (is_Some (d !! "chunksize"))) as [Hc|Hc].
    + rewrite bool_decide_eq_true_2 by done. simpl negb. cbv iota.
      unfold ret at 1. cbv beta iota. by rewrite log_nil.
    + rewrite bool_decide_eq_false_2 by done. simpl negb. cbv iota beta zeta.
      case_decide.
      * reflexivity.
      * unfold ret at 1. cbv beta iota. by rewrite log_nil.
Qed.
End Facts.

(** ** The pools: results come back in submission order *)


Module FuturesFacts.
Import Py Iter Eff Store Futures Display.

(** Whatever the order in which the workers finish, every submitted
    task has its future set, with the result of that task. *)
Lemma run_tasks_lookup {T R} (work : T → R) (tasks : list T) order :
  ∀ (acc : gmap nat R) i,
  foldl (λ done i, match tasks !! i with
                   | Some t => <[i := work t]> done
                   | None => done
                   end) acc order !! i =
  if decide (i ∈ order)
  then match tasks !! i with
       | Some t => Some (work t)
       | None => acc !! i
       end
  else acc !! i.
Proof.
  induction order as [|x order IH]; intros acc i; [done|].
  cbn [foldl]. rewrite IH.
  destruct (decide (i ∈ order)) as [Hin|Hin];
    destruct (decide (i ∈ x :: order)) as [Hin'|Hin'].
  - destruct (tasks !! i) eqn:Hi; [done|].
    destruct (decide (x = i)) as [->|Hne]; [by rewrite Hi|].
    destruct (tasks !! x); [by rewrite lookup_insert_ne|done].
  - exfalso. apply Hin'. by right.
  - apply elem_of_cons in Hin' as [->|?]; [|done].
    destruct (tasks !! x); [by rewrite lookup_insert_eq|done].
  - assert (x ≠ i) by (intros ->; apply Hin'; by left).
    destruct (tasks !! x); [by rewrite lookup_insert_ne|done].
Qed.

Lemma executor_map_ordered {T R} env ex (work : T → res R) tasks :
  executor_map env ex work tasks =
  result_iterator ((λ t, Some (work t)) <$> tasks).
Proof.
  unfold executor_map, run_tasks, completion_order. f_equal.
  apply list_eq. intros i. rewrite !list_lookup_fmap.
  destruct (decide (i < length tasks)) as [Hi|Hi].
  - rewrite lookup_seq_lt by done. simpl.
    rewrite run_tasks_lookup, decide_True.
    + by destruct (lookup_lt_is_Some_2 tasks i Hi) as [t ->].
    + rewrite merge_sort_Permutation. apply elem_of_seq. lia.
  - rewrite lookup_seq_ge by lia. by rewrite lookup_ge_None_2 by lia.
Qed.

(** Draining the result iterator of the tasks is running them one
    after the other. *)
Lemma drain_result_iterator fn rows :
  drain (result_iterator ((λ t, Some (fn t)) <$> rows)) =
  match _process_chunk fn rows with
  | Ok values => Returns values
  | Err e => Raises e
  end.
Proof.
  induction rows as [|a rows IH]; simpl; [done|].
  destruct (fn a) as [v|e]; [|done].
  unfold drain in *. simpl.
  destruct (_process_chunk fn rows) as [vs|e];
    by destruct (stop _); simplify_eq.
Qed.

Lemma process_chunk_app fn xs ys :
  _process_chunk fn (xs ++ ys) =
  match _process_chunk fn xs with
  | Err e => Err e
  | Ok vs =>
      match _process_chunk fn ys with
      | Err e => Err e
      | Ok ws => Ok (vs ++ ws)
      end
  end.
Proof.
  induction xs as [|a xs IH]; simpl.
  - by destruct (_process_chunk fn ys).
  - destruct (fn a); [|done]. rewrite IH.
    destruct (_process_chunk fn xs); [|done].
    by destruct (_process_chunk fn ys).
Qed.

Lemma drain_chain fn chunks :
  drain (chain (result_iterator
                  ((λ t, Some (_process_chunk fn t)) <$> chunks))) =
  match _process_chunk fn (concat chunks) with
  | Ok values => Returns values
  | Err e => Raises e
  end.
Proof.
  induction chunks as [|c chunks IH]; simpl; [done|].
  rewrite process_chunk_app.
  destruct (_process_chunk fn c) as [vs|e]; [|done].
  unfold drain, chain in *. simpl in *.
  destruct (_process_chunk fn (concat chunks)) as [ws|e];
    by destruct (stop _); simplify_eq.
Qed.

Lemma concat_chunks_upto {A} n : 0 < n → ∀ fuel (l : list A),
  length l ≤ fuel → concat (chunks_upto fuel n l) = l.
Proof.
  intros Hn. induction fuel as [|fuel IH]; intros l Hl.
  - destruct l; [done|simpl in Hl; lia].
  - destruct l as [|a l]; [done|].
    change (chunks_upto (S fuel) n (a :: l))
      with (take n (a :: l) :: chunks_upto fuel n (drop n (a :: l))).
    simpl concat. rewrite IH; [apply take_drop|].
    rewrite length_drop. simpl in *. lia.
Qed.

Lemma concat_get_chunks {A} n (l : list A) :
  0 < n → concat (_get_chunks n l) = l.
Proof. intros Hn. by apply concat_chunks_upto. Qed.

Lemma check_chunksize_pos v n : check_chunksize v = Ok n → 0 < n.
Proof.
  destruct v as [|[]|z| | |]; simpl; try done.
  - intros; simplify_eq. lia.
  - case_decide; [done|]. intros; simplify_eq. lia.
Qed.

(** ** What [ex.map] hands back *)

Lemma submit_returns env ex fn its cs it :
  submit env ex fn its cs = Returns it →
  drain it = Summary.eager_map fn its.
Proof.
  unfold submit, Summary.eager_map.
  destruct (kind ex).
  - destruct (zip_all its) as [rows|]; [|done]. intros; simplify_eq.
    by rewrite executor_map_ordered, drain_result_iterator.
  - destruct (check_chunksize cs) as [n|e] eqn:Hn; [|done].
    destruct (zip_all its) as [rows|]; [|done]. intros; simplify_eq.
    rewrite executor_map_ordered, drain_chain, concat_get_chunks; [done|].
    by eapply check_chunksize_pos.
Qed.

Lemma submit_hangs env ex fn its cs :
  submit env ex fn its cs = Hangs → zip_all its = None.
Proof.
  unfold submit. destruct (kind ex).
  - by destruct (zip_all its).
  - destruct (check_chunksize cs); [|done]. by destruct (zip_all its).
Qed.

Lemma submit_raises env ex fn its cs e :
  submit env ex fn its cs = Raises e →
  kind ex = ProcessPoolExecutor ∧ check_chunksize cs = Err e.
Proof.
  unfold submit. destruct (kind ex).
  - by destruct (zip_all its).
  - destruct (check_chunksize cs); [by destruct (zip_all its)|].
    by intros; simplify_eq.
Qed.

End FuturesFacts.

(** ** The summary: what comes out is the eager map *)

Module SummaryFacts.
Import Py Iter Eff Store Futures Display FuturesFacts PyFacts.

Lemma in_pool_returns env k pk fn its tc cs opts values :
  (Summary.in_pool env k pk fn its tc cs opts).1 = Returns values →
  Summary.eager_map fn its = Returns values.
Proof.
  unfold Summary.in_pool.
  destruct (submit _ _ _ _ _) as [results|e|] eqn:Hs; [|done..].
  destruct tc; try done. destruct (display_check _ _ _); [done|].
  rewrite <-(submit_returns _ _ _ _ _ _ Hs).
  by destruct (drain results).
Qed.

(** A list that is returned is the list of the eager map. *)
Lemma executor_map_returns env k fn its d values :
  (Summary.executor_map env k fn its d).1 = Returns values →
  Summary.eager_map fn its = Returns values.
Proof.
  unfold Summary.executor_map, Summary.resolved.
  destruct (Summary.with_total its d) as [d1|e]; [|done].
  destruct (Summary.default_max_workers env) as [n|e]; [|done].
  destruct (Summary.pool_arguments _ _ _) as [[pk evs]|e]; [|done].
  destruct (check_max_workers _); [done|]. simpl.
  apply in_pool_returns.
Qed.

Lemma default_max_workers_valid env n :
  Summary.default_max_workers env = Ok n → check_max_workers n = None.
Proof.
  unfold Summary.default_max_workers.
  destruct (cpu_module env) as [[c|]|[c|]|]; intros; simplify_eq;
    unfold check_max_workers; case_decide; (lia || done).
Qed.

Lemma with_total_lookup its d d1 k :
  Summary.with_total its d = Ok d1 → k ≠ "total" → d1 !! k = d !! k.
Proof.
  unfold Summary.with_total. intros H Hk. case_decide; [by simplify_eq|].
  destruct (its !! 0) as [first|]; [|done].
  destruct (len first); [|done]. simplify_eq. by rewrite lookup_insert_ne.
Qed.

Lemma with_total_known its d :
  Summary.total_known its d = true → ∃ d1, Summary.with_total its d = Ok d1.
Proof.
  unfold Summary.total_known, Summary.with_total. intros H.
  case_decide as Ht; [eauto|].
  destruct (d !! "total"); [by destruct Ht|].
  destruct (its !! 0) as [[]|]; try done. simpl. eauto.
Qed.

(** A call that is well configured comes out as the eager map
    does. *)
Lemma executor_map_total env k fn its d :
  Summary.total_known its d = true →
  Summary.cpu_known env = true →
  Summary.class_given d = true →
  Summary.workers_valid d = true →
  Summary.chunksize_valid k d = true →
  Summary.accepting env →
  (Summary.executor_map env k fn its d).1 = Summary.eager_map fn its.
Proof.
  intros Ht Hcpu Hcls Hw Hcs Hacc.
  destruct (with_total_known _ _ Ht) as [d1 Hd1].
  unfold Summary.executor_map. rewrite Hd1. unfold Summary.resolved.
  rewrite !(with_total_lookup _ _ _ _ Hd1) by done.
  unfold Summary.cpu_known in Hcpu.
  destruct (Summary.default_max_workers env) as [n|e] eqn:Hn; [|done].
  assert (check_max_workers (default n (d !! "max_workers")) = None) as ->.
  { unfold Summary.workers_valid in Hw.
    destruct (d !! "max_workers"); simpl.
    - by apply bool_decide_eq_true_1 in Hw.
    - by eapply default_max_workers_valid. }
  assert (∃ c, default (VClass tqdm_auto) (d !! "tqdm_class") = VClass c)
    as [c ->].
  { unfold Summary.class_given in Hcls.
    destruct (d !! "tqdm_class") as [[]|]; simpl; try done; eauto. }
  unfold Summary.pool_arguments.
  assert (∃ pk evs,
    (if tuple_ge (version_info env) (3, 7)
     then Ok (PoolKwargs (default n (d !! "max_workers"))
                (Some (SetLock c)) (Some [ClassLock c]), [EGetLock c])
     else Ok (PoolKwargs (default n (d !! "max_workers")) None None, []))
    = Ok (pk, evs)) as (pk & evs & ->).
  { destruct (tuple_ge _ _); eauto. }
  simpl. unfold Summary.in_pool.
  destruct (submit _ _ _ _ _) as [results|e|] eqn:Hs.
  - rewrite Hacc, <-(submit_returns _ _ _ _ _ _ Hs).
    by destruct (drain results).
  - apply submit_raises in Hs as [Hk He]. simpl in Hk. subst k.
    unfold Summary.chunksize_valid in Hcs.
    destruct (d !! "chunksize"); simpl in He; [|done].
    by rewrite He in Hcs.
  - apply submit_hangs in Hs. unfold Summary.eager_map. by rewrite Hs.
Qed.

End SummaryFacts.

(** ** Whole calls *)

Module CallFacts.
Import Py Iter Eff Store Futures Display Concurrent.
Import PyFacts Facts FuturesFacts SummaryFacts.

Lemma unpacked_run env k fn its l d σ :
  heap σ !! l = Some (ODict d) →
  let r := (packed ← dict_unpack l; _executor_map env k fn its packed) σ in
  heap σ ⊆ heap r.2 ∧
  ((r.1 = Raises RecursionError ∧ trace r.2 = trace σ ∧
    ∀ h0, h0 ⊆ heap σ → copyable env h0 d = false) ∨
   ∃ d', dict_copy d d' ∧
     r.1 = (Summary.executor_map env k fn its d').1 ∧
     trace r.2 = trace σ ++ (Summary.executor_map env k fn its d').2).
Proof.
  intros Hl. cbv zeta. rewrite bind_run, (dict_unpack_run _ _ _ Hl).
  destruct (executor_map_run env k fn its (alloc (heap σ))
              (set_dict (alloc (heap σ)) d σ) d (heap_set_dict _ _ _))
    as (hf & Hsub & [[-> Hn]|(d' & Hcopy & ->)]); simpl.
  - split; [etrans; [apply set_dict_fresh_subseteq|done]|].
    left. repeat split. intros h0 Hh0.
    destruct (copyable env h0 d) eqn:Hc; [|done].
    rewrite (copyable_nested env h0 d _ (alloc (heap σ)) Hc) in Hn; [done| |].
    + etrans; [exact Hh0|apply set_dict_fresh_subseteq].
    + apply heap_set_dict.
  - split; [etrans; [apply set_dict_fresh_subseteq|done]|].
    right. by exists d'.
Qed.

Lemma adapter_unpacked env k fn its l d σ :
  heap σ !! l = Some (ODict d) →
  adapter env k fn its l σ =
    (packed ← dict_unpack l; _executor_map env k fn its packed)
      (log (Summary.warning env k its d) σ).
Proof.
  intros Hl. destruct k; simpl.
  - by rewrite log_nil.
  - by apply warning_run.
Qed.

(** What a call comes to: the warning, then what the summary says of
    the copied options; the caller's store is where it was. *)
Lemma call_run env k fn its d h :
  let r := call env k fn its d h in
  <[alloc h := ODict d]> h ⊆ heap r.2 ∧
  ((r.1 = Raises RecursionError ∧
    trace r.2 = Summary.warning env k its d ∧ copyable env h d = false) ∨
   ∃ d', dict_copy d d' ∧
     r.1 = (Summary.executor_map env k fn its d').1 ∧
     trace r.2 = Summary.warning env k its d ++
                 (Summary.executor_map env k fn its d').2).
Proof.
  cbv zeta. unfold call. rewrite bind_run, dict_new_run. cbv beta iota.
  rewrite (adapter_unpacked env k fn its _ d) by apply heap_set_dict.
  destruct (unpacked_run env k fn its (alloc h) d
              (log (Summary.warning env k its d)
                 (set_dict (alloc h) d (State h []))))
    as [Hsub [(Ho & Ht & Hc)|(d' & Hcopy & Ho & Ht)]];
    [apply lookup_insert_eq|..]; (split; [exact Hsub|]).
  - left. repeat split; [done|done|].
    apply Hc. simpl. apply insert_subseteq, alloc_fresh.
  - right. by exists d'.
Qed.

Lemma call_returns env k fn its d h values :
  (call env k fn its d h).1 = Returns values →
  Summary.eager_map fn its = Returns values.
Proof.
  destruct (call_run env k fn its d h)
    as [_ [(Ho & _)|(d' & _ & Ho & _)]]; rewrite Ho; [done|].
  apply executor_map_returns.
Qed.

Lemma total_known_copy its d d' :
  dict_copy d d' → Summary.total_known its d = Summary.total_known its d'.
Proof.
  intros Hc. unfold Summary.total_known. specialize (Hc "total").
  by destruct Hc.
Qed.

Lemma class_given_copy d d' :
  dict_copy d d' → Summary.class_given d = true →
  Summary.class_given d' = true.
Proof.
  intros Hc. unfold Summary.class_given. specialize (Hc "tqdm_class").
  destruct Hc as [x y Hxy|]; [|done]. destruct x; try done.
  simpl in Hxy. by subst.
Qed.

Lemma workers_valid_copy d d' :
  dict_copy d d' → Summary.workers_valid d = true →
  Summary.workers_valid d' = true.
Proof.
  intros Hc. unfold Summary.workers_valid. specialize (Hc "max_workers").
  destruct Hc as [x y Hxy|]; [|done].
  destruct x; simpl in Hxy; by subst.
Qed.

Lemma chunksize_valid_copy k d d' :
  dict_copy d d' → Summary.chunksize_valid k d = true →
  Summary.chunksize_valid k d' = true.
Proof.
  intros Hc. unfold Summary.chunksize_valid. specialize (Hc "chunksize").
  destruct k; [done|]. destruct Hc as [x y Hxy|]; [|done].
  destruct x; simpl in Hxy; by subst.
Qed.

Lemma well_configured_parts env k its d h :
  Summary.well_configured env k its d h = true →
  copyable env h d = true ∧ Summary.total_known its d = true ∧
  Summary.cpu_known env = true ∧ Summary.class_given d = true ∧
  Summary.workers_valid d = true ∧ Summary.chunksize_valid k d = true.
Proof.
  unfold Summary.well_configured. rewrite !andb_true_iff. tauto.
Qed.

(** A well-configured call comes out as the eager map does. *)
Lemma call_total env k fn its d h :
  Summary.well_configured env k its d h = true →
  Summary.accepting env →
  (call env k fn its d h).1 = Summary.eager_map fn its.
Proof.
  intros (Hc & Ht & Hcpu & Hcls & Hw & Hcs)%well_configured_parts Hacc.
  destruct (call_run env k fn its d h)
    as [_ [(_ & _ & Hn)|(d' & Hcopy & Ho & _)]]; [congruence|].
  rewrite Ho. apply executor_map_total; try done.
  - by rewrite <-(total_known_copy its d d').
  - by eapply class_given_copy.
  - by eapply workers_valid_copy.
  - by eapply chunksize_valid_copy.
Qed.

Lemma call_event env k fn its d h ev :
  ev ∈ trace (call env k fn its d h).2 →
  ev ∈ Summary.warning env k its d ∨
  ∃ d', dict_copy d d' ∧ ev ∈ (Summary.executor_map env k fn its d').2.
Proof.
  destruct (call_run env k fn its d h)
    as [_ [(_ & -> & _)|(d' & Hc & _ & ->)]]; [by left|].
  intros [?|?]%elem_of_app; [by left|right; eauto].
Qed.

Lemma call_copied env k fn its d h :
  copyable env h d = true →
  ∃ d', dict_copy d d' ∧
    (call env k fn its d h).1 = (Summary.executor_map env k fn its d').1 ∧
    trace (call env k fn its d h).2 =
      Summary.warning env k its d ++
      (Summary.executor_map env k fn its d').2.
Proof.
  intros Hc. destruct (call_run env k fn its d h)
    as [_ [(_ & _ & Hn)|(d' & Hcopy & Ho & Ht)]]; [congruence|eauto].
Qed.

End CallFacts.

(** ** The eager map, element by element *)

Module EagerMapFacts.
Import Py Iter Eff Store Futures Display.

Lemma process_chunk_Ok fn rows values :
  _process_chunk fn rows = Ok values ↔
  Forall2 (λ a v, fn a = Ok v) rows values.
Proof.
  revert values. induction rows as [|a rows IH]; intros values; simpl.
  - split; [intros; simplify_eq; constructor|by inversion 1].
  - destruct (fn a) as [v|e] eqn:Ha.
    + destruct (_process_chunk fn rows) as [vs|e] eqn:Hr.
      * split.
        -- intros; simplify_eq. constructor; [done|by apply IH].
        -- inversion 1 as [|? w ? ws Hw Hws]; subst.
           apply IH in Hws. congruence.
      * split; [done|]. inversion 1 as [|? w ? ws Hw Hws]; subst.
        apply IH in Hws. congruence.
    + split; [done|]. inversion 1; congruence.
Qed.


Lemma zip_all_Some its rows :
  its ≠ [] → zip_all its = Some rows →
  ∃ n, shortest its = Some n ∧ rows = row its <$> seq 0 n.
Proof.
  intros Hne. unfold zip_all. destruct its as [|it its]; [done|].
  destruct (shortest (it :: its)) as [n|]; simpl; [|done].
  intros; simplify_eq. exists n. eauto.
Qed.

Lemma zip_all_shortest its n :
  shortest its = Some n → zip_all its = Some (row its <$> seq 0 n).
Proof.
  intros H. unfold zip_all. destruct its as [|it its]; [done|].
  by rewrite H.
Qed.

Lemma zip_all_None its : zip_all its = None → shortest its = None.
Proof.
  unfold zip_all. destruct its as [|it its]; [done|].
  by destruct (shortest (it :: its)).
Qed.

(** The length of what the eager map returns is where [zip]
    stops. *)
Lemma eager_map_length fn its values :
  its ≠ [] → Summary.eager_map fn its = Returns values →
  shortest its = Some (length values).
Proof.
  intros Hne. unfold Summary.eager_map.
  destruct (zip_all its) as [rows|] eqn:Hz; [|done].
  destruct (zip_all_Some _ _ Hne Hz) as (n & Hn & ->).
  destruct (_process_chunk _ _) as [vs|e] eqn:Hp; [|done].
  intros; simplify_eq. apply process_chunk_Ok, Forall2_length in Hp.
  rewrite length_fmap, length_seq in Hp. by subst.
Qed.

Lemma eager_map_lookup fn its values i :
  its ≠ [] → Summary.eager_map fn its = Returns values →
  i < length values →
  ∃ v, values !! i = Some v ∧ fn (row its i) = Ok v.
Proof.
  intros Hne. unfold Summary.eager_map.
  destruct (zip_all its) as [rows|] eqn:Hz; [|done].
  destruct (zip_all_Some _ _ Hne Hz) as (n & Hn & ->).
  destruct (_process_chunk _ _) as [vs|e] eqn:Hp; [|done].
  intros ? Hi; simplify_eq. apply process_chunk_Ok in Hp.
  destruct (lookup_lt_is_Some_2 values i Hi) as [v Hv].
  exists v. split; [done|].
  destruct (Forall2_lookup_r _ _ _ _ _ Hp Hv) as (a & Ha & Hfa).
  rewrite list_lookup_fmap in Ha.
  destruct (seq 0 n !! i) as [j|] eqn:Hj; [|done].
  apply lookup_seq in Hj as [-> _]. simpl in Ha. by simplify_eq.
Qed.

(** When [fn] returns on every argument tuple, so does the map. *)
Lemma eager_map_Returns fn its n :
  shortest its = Some n →
  (∀ i, i < n → ∃ v, fn (row its i) = Ok v) →
  ∃ values, Summary.eager_map fn its = Returns values.
Proof.
  intros Hn Hfn. unfold Summary.eager_map.
  rewrite (zip_all_shortest _ _ Hn).
  assert (∃ vs, _process_chunk fn (row its <$> seq 0 n) = Ok vs) as [vs ->];
    [|eauto].
  assert (∀ js, Forall (λ j, j < n) js →
            ∃ vs, _process_chunk fn (row its <$> js) = Ok vs) as Hjs.
  { induction js as [|j js IH]; intros Hall; [by eexists|].
    inversion Hall as [|? ? Hj Hrest]; subst.
    destruct (Hfn j Hj) as [v Hv]. destruct (IH Hrest) as [vs Hvs].
    exists (v :: vs). rewrite fmap_cons. simpl. by rewrite Hv, Hvs. }
  apply Hjs, Forall_forall. intros j Hj%elem_of_seq. lia.
Qed.


Lemma shortest_sized (xss : list (list pyval)) n :
  xss ≠ [] → Forall (λ xs, length xs = n) xss →
  shortest (Sized <$> xss) = Some n.
Proof.
  intros Hne Hall. induction Hall as [|xs xss Hxs Hall IH]; [done|].
  rewrite fmap_cons. cbn [shortest extent]. rewrite Hxs.
  destruct xss as [|ys yss]; [done|].
  rewrite IH by done. f_equal. lia.
Qed.

End EagerMapFacts.

(** ** The events of a call *)

Module EventFacts.
Import Py Iter Eff Store Futures Display.
Import SummaryFacts.

Ltac in_list :=
  repeat match goal with
         | H : _ ∈ [] |- _ => by apply elem_of_nil in H
         | H : _ ∈ _ :: _ |- _ => apply elem_of_cons in H as [H|H]
         | H : _ ∈ _ ++ _ |- _ => apply elem_of_app in H as [H|H]
         end.

(** The events of the lines after the pool is built. *)
Lemma in_pool_events env k pk fn its tc cs opts ev :
  ev ∈ (Summary.in_pool env k pk fn its tc cs opts).2 →
  ev = EPoolMap k cs ∨ ev = EPoolShutdown k ∨
  ∃ c, tc = VClass c ∧ ev = EDisplayInit c opts.
Proof.
  unfold Summary.in_pool. intros H.
  destruct (submit _ _ _ _ _) as [results|e|]; simpl in H;
    [|in_list; eauto..].
  destruct tc as [| | | |c|]; simpl in H; try (in_list; eauto; fail).
  destruct (display_check _ _ _); simpl in H; [in_list; eauto 6|].
  destruct (drain results); simpl in H; in_list; eauto 6.
Qed.

(** Every event of [_executor_map], with what it says about the
    options. *)
Lemma executor_map_events env k fn its d ev :
  ev ∈ (Summary.executor_map env k fn its d).2 →
  ∃ d1, Summary.with_total its d = Ok d1 ∧
    (ev = ECpuCount ∨
     ∃ n, Summary.default_max_workers env = Ok n ∧
       let tqdm_class := default (VClass tqdm_auto) (d1 !! "tqdm_class") in
       let workers := default n (d1 !! "max_workers") in
       let chunksize := default (VInt 1) (d1 !! "chunksize") in
       ((∃ c, tuple_ge (version_info env) (3, 7) = true ∧
              tqdm_class = VClass c ∧ ev = EGetLock c) ∨
        (∃ c, tuple_ge (version_info env) (3, 7) = true ∧
              tqdm_class = VClass c ∧
              ev = EPoolInit k (PoolKwargs workers (Some (SetLock c))
                                  (Some [ClassLock c]))) ∨
        (tuple_ge (version_info env) (3, 7) = false ∧
         ev = EPoolInit k (PoolKwargs workers None None)) ∨
        ev = EPoolMap k chunksize ∨ ev = EPoolShutdown k ∨
        (∃ c, tqdm_class = VClass c ∧
              ev = EDisplayInit c
                     (delete "chunksize"
                        (delete "max_workers"
                           (delete "tqdm_class" d1)))))).
Proof.
  unfold Summary.executor_map, Summary.resolved. intros H.
  destruct (Summary.with_total its d) as [d1|e]; simpl in H; [|in_list].
  exists d1. split; [done|].
  destruct (Summary.default_max_workers env) as [n|e]; simpl in H;
    [|in_list; eauto].
  unfold Summary.pool_arguments in H.
  destruct (tuple_ge (version_info env) (3, 7)) eqn:Hv.
  - destruct (default (VClass tqdm_auto) (d1 !! "tqdm_class"))
      as [| | | |c|] eqn:Hc; simpl in H; try (in_list; eauto; fail).
    destruct (check_max_workers _); simpl in H.
    + in_list; eauto 10.
    + in_list; eauto 10.
      apply in_pool_events in H as [->|[->|(c' & ? & ->)]];
        right; exists n; (split; [done|]); simpl; eauto 10.
  - destruct (check_max_workers _); simpl in H.
    + in_list; eauto 10.
    + in_list; eauto 10.
      apply in_pool_events in H as [->|[->|(c' & ? & ->)]];
        right; exists n; (split; [done|]); simpl; eauto 10.
Qed.



Lemma class_given_default d :
  Summary.class_given d = true →
  ∃ c, default (VClass tqdm_auto) (d !! "tqdm_class") = VClass c.
Proof.
  unfold Summary.class_given.
  destruct (d !! "tqdm_class") as [[]|]; simpl; try done; eauto.
Qed.

Lemma executor_map_pool_event env k fn its d :
  Summary.total_known its d = true →
  Summary.cpu_known env = true →
  Summary.class_given d = true →
  ∃ pk, EPoolInit k pk ∈ (Summary.executor_map env k fn its d).2.
Proof.
  intros [d1 Hd1]%with_total_known Hcpu [c Hc]%class_given_default.
  unfold Summary.executor_map, Summary.resolved. rewrite Hd1.
  rewrite !(with_total_lookup _ _ _ _ Hd1) by done. rewrite Hc.
  unfold Summary.cpu_known in Hcpu.
  destruct (Summary.default_max_workers env) as [n|]; [|done].
  unfold Summary.pool_arguments.
  destruct (tuple_ge _ _); destruct (check_max_workers _); simpl;
    eexists; rewrite ?elem_of_cons; eauto 6.
Qed.

Lemma executor_map_display_event env k fn its d n :
  Summary.total_known its d = true →
  Summary.cpu_known env = true →
  Summary.class_given d = true →
  Summary.workers_valid d = true →
  Summary.chunksize_valid k d = true →
  shortest its = Some n →
  ∃ c kw, EDisplayInit c kw ∈ (Summary.executor_map env k fn its d).2.
Proof.
  intros [d1 Hd1]%with_total_known Hcpu [c Hc]%class_given_default
    Hw Hcs Hn.
  unfold Summary.executor_map, Summary.resolved. rewrite Hd1.
  rewrite !(with_total_lookup _ _ _ _ Hd1) by done. rewrite Hc.
  unfold Summary.cpu_known in Hcpu.
  destruct (Summary.default_max_workers env) as [w|] eqn:Hdef; [|done].
  assert (check_max_workers (default w (d !! "max_workers")) = None) as Hok.
  { unfold Summary.workers_valid in Hw.
    destruct (d !! "max_workers"); simpl.
    - by apply bool_decide_eq_true_1 in Hw.
    - by eapply default_max_workers_valid. }
  unfold Summary.pool_arguments.
  assert (∀ pk, ∃ kw, EDisplayInit c kw ∈
            (Summary.in_pool env k pk fn its (VClass c)
               (default (VInt 1) (d !! "chunksize"))
               (delete "chunksize"
                  (delete "max_workers" (delete "tqdm_class" d1)))).2)
    as Hpool.
  { intros pk. unfold Summary.in_pool.
    destruct (submit _ _ _ _ _) as [results|e|] eqn:Hs.
    - destruct (display_check _ _ _); [|destruct (drain results)]; simpl;
        eexists; rewrite ?elem_of_cons; eauto.
    - apply FuturesFacts.submit_raises in Hs as [Hk He]. simpl in Hk.
      subst k. unfold Summary.chunksize_valid in Hcs.
      destruct (d !! "chunksize"); simpl in He; [|done].
      by rewrite He in Hcs.
    - apply FuturesFacts.submit_hangs, EagerMapFacts.zip_all_None in Hs.
      congruence. }
  destruct (tuple_ge _ _); rewrite Hok; simpl;
    match goal with
    | |- context [Summary.in_pool env k ?pk] =>
        destruct (Hpool pk) as [kw Hkw]
    end; exists c, kw; rewrite ?elem_of_cons; eauto.
Qed.

End EventFacts.

(** * The claims *)

Import Py Iter Eff Store Futures Display Concurrent.
Import PyFacts Facts FuturesFacts SummaryFacts CallFacts EagerMapFacts.
Import EventFacts.

(** C1.  For every function [fn] and equal-length input sequences, the
    list a call of [thread_map] or [process_map] returns is the
    sequential map: it has the sequences' length and
    [result[i] = fn( *[seq[i] for seq in xss] )] at every index, whatever
    [max_workers] and [chunksize] the options hold, for either pool kind
    and any order in which the workers finish.  And a well-configured call
    on which [fn] returns everywhere does return such a list. *)
Theorem map_equals_sequential_map env k fn (xss : list (list pyval)) n
    (options : gmap string pyval) h :
  xss ≠ [] →
  Forall (λ xs, length xs = n) xss →
  let iterables := Sized <$> xss in
  let outcome := (call env k fn iterables options h).1 in
  (∀ result, outcome = Returns result →
     length result = n ∧
     ∀ i, i < n → ∃ v, result !! i = Some v ∧ fn (row iterables i) = Ok v) ∧
  (Summary.well_configured env k iterables options h = true →
   Summary.accepting env →
   (∀ i, i < n → ∃ v, fn (row iterables i) = Ok v) →
   ∃ result, outcome = Returns result).
Proof.
  intros Hne Hlen iterables outcome.
  assert (iterables ≠ []) as Hits by (subst iterables; by destruct xss).
  pose proof (shortest_sized xss n Hne Hlen) as Hshort.
  split.
  - intros result Hres. apply call_returns in Hres.
    pose proof (eager_map_length _ _ _ Hits Hres) as Hl.
    fold iterables in Hshort. rewrite Hshort in Hl. simplify_eq.
    split; [done|]. intros i Hi.
    by apply eager_map_lookup.
  - intros Hwc Hacc Hfn. subst outcome.
    rewrite (call_total _ _ _ _ _ _ Hwc Hacc).
    by eapply eager_map_Returns.
Qed.

Lemma map_equals_sequential_map_witness :
  Sample.pairs ≠ [] ∧
  Forall (λ xs, length xs = 2) Sample.pairs ∧
  (∀ result,
     (call Sample.env ProcessPoolExecutor Sample.add (Sized <$> Sample.pairs)
        Sample.tuned ∅).1 = Returns result →
     length result = 2 ∧
     ∀ i, i < 2 → ∃ v, result !! i = Some v ∧
       Sample.add (row (Sized <$> Sample.pairs) i) = Ok v) ∧
  ∃ result,
    (call Sample.env ProcessPoolExecutor Sample.add (Sized <$> Sample.pairs)
       Sample.tuned ∅).1 = Returns result.
Proof.
  assert (Sample.pairs ≠ []) as Hne by done.
  assert (Forall (λ xs, length xs = 2) Sample.pairs) as Hlen
    by (by repeat constructor).
  pose proof (map_equals_sequential_map Sample.env ProcessPoolExecutor
                Sample.add Sample.pairs 2 Sample.tuned ∅ Hne Hlen) as H.
  cbv zeta in H. destruct H as [Hpart Htotal].
  split; [exact Hne|]. split; [exact Hlen|]. split; [exact Hpart|].
  apply Htotal; [by vm_compute|done|].
  intros [|[|i]] Hi; [by eexists|by eexists|lia].
Defined.

Lemma warnings_app evs evs' : warnings (evs ++ evs') = warnings evs + warnings evs'.
Proof. unfold warnings. by rewrite List.filter_app, length_app. Qed.

Lemma warnings_none evs :
  (∀ ev, ev ∈ evs → is_warning ev = false) → warnings evs = 0.
Proof.
  unfold warnings. induction evs as [|ev evs IH]; intros H; [done|].
  simpl. rewrite (H ev) by left. apply IH. intros ev' Hev'. apply H. by right.
Qed.

Lemma executor_map_warnings env k fn its d :
  warnings (Summary.executor_map env k fn its d).2 = 0.
Proof.
  apply warnings_none. intros ev Hev.
  destruct (executor_map_events _ _ _ _ _ _ Hev) as (d1 & _ & [->|(n & _ & H)]);
    [done|].
  simpl in H. by destruct H as [(c & _ & _ & ->)|[(c & _ & _ & ->)|
    [(_ & ->)|[->|[->|(c & _ & ->)]]]]].
Qed.

Lemma call_warnings env k fn its d h :
  warnings (trace (call env k fn its d h).2) =
  warnings (Summary.warning env k its d).
Proof.
  destruct (call_run env k fn its d h)
    as [_ [(_ & -> & _)|(d' & _ & _ & ->)]]; [done|].
  rewrite warnings_app, executor_map_warnings. lia.
Qed.

(** The warning step of [process_map] never raises and never hangs: the
    call goes on as [_executor_map] does, with at most one warning more in
    the log. *)
Lemma process_map_goes_on env fn its l σ :
  ∃ w, (w = [] ∨ ∃ n, w = [EWarn "RuntimeWarning" n]) ∧
    process_map env fn its l σ =
      (packed ← dict_unpack l;
       _executor_map env ProcessPoolExecutor fn its packed) (log w σ).
Proof.
  destruct (heap σ !! l) as [[xs|d]|] eqn:Hl.
  2:{ exists (Summary.warning env ProcessPoolExecutor its d).
      split; [|by apply warning_run].
      unfold Summary.warning. repeat case_match; eauto. }
  all: exists []; split; [by left|]; rewrite log_nil.
  all: unfold process_map; rewrite bind_run.
  all: case_bool_decide;
    [unfold ret at 1; cbv beta iota; rewrite bind_run; by unfold ret at 1|].
  all: rewrite bind_run; unfold dict_contains, dict_unpack;
    rewrite !bind_run; unfold dict_read; rewrite !bind_run; simpl;
    by rewrite Hl.
Qed.

(** C2, as the specification has it, fails where the interpreter has no
    [operator.length_hint]: there [process_map(double, g)] without
    [chunksize], for a generator [g] whose length hint is 1000, logs no
    warning, the module's own [length_hint] looking at [len] alone. *)
Lemma hinted_generator_does_not_warn :
  has_length_hint Sample.env_legacy = false ∧
  (∅ : gmap string pyval) !! "chunksize" = None ∧
  1000 ≤ max_list ((λ it, operator_length_hint it 0) <$> Sample.announced) ∧
  warnings (trace (call Sample.env_legacy ProcessPoolExecutor Sample.double
                     Sample.announced ∅ ∅).2) = 0.
Proof.
  split; [done|]. split; [done|]. split; [simpl; lia|by vm_compute].
Qed.

(** C2, amended.  A call logs a [RuntimeWarning] exactly once when it is
    a [process_map] call without [chunksize] whose longest length hint is
    at least 1000, and not at all otherwise.  The length hint is the one
    of [operator.length_hint] where the interpreter has it; where it has
    not, it is [len] alone, a sequence without [len] counting as 0
    whatever its [__length_hint__].  [thread_map] never warns; and the
    warning changes nothing else: [process_map] carries on exactly as
    [_executor_map] does, whether it warned or not. *)
Theorem warning_exactly_when_unchunked env k fn its
    (options : gmap string pyval) h :
  let evs := trace (call env k fn its options h).2 in
  let once (longest : nat) :=
    if decide (k = ProcessPoolExecutor ∧ options !! "chunksize" = None ∧
               1000 ≤ longest) then 1 else 0 in
  (has_length_hint env = true →
   warnings evs =
     once (max_list ((λ it, operator_length_hint it 0) <$> its))) ∧
  (has_length_hint env = false →
   warnings evs =
     once (max_list ((λ it, match len it with
                            | Ok n => n
                            | Err _ => 0
                            end) <$> its))) ∧
  warnings (trace (call env ThreadPoolExecutor fn its options h).2) = 0 ∧
  (∀ tqdm_kwargs σ, ∃ w,
     (w = [] ∨ ∃ n, w = [EWarn "RuntimeWarning" n]) ∧
     process_map env fn its tqdm_kwargs σ =
       (packed ← dict_unpack tqdm_kwargs;
        _executor_map env ProcessPoolExecutor fn its packed) (log w σ)).
Proof.
  cbv zeta.
  assert (warnings (trace (call env k fn its options h).2) =
          if decide (k = ProcessPoolExecutor ∧
                     options !! "chunksize" = None ∧
                     1000 ≤ max_list ((λ it, length_hint env it 0) <$> its))
          then 1 else 0) as Hcount.
  { rewrite call_warnings. unfold Summary.warning. destruct k.
    - rewrite decide_False; [done|]. by intros [? _].
    - case_bool_decide as Hits.
      + subst its. simpl. rewrite decide_False; [done|].
        intros (_ & _ & ?). lia.
      + destruct (decide (is_Some (options !! "chunksize"))) as [Hc|Hc].
        * rewrite decide_False; [done|]. intros (_ & Hn & _).
          rewrite Hn in Hc. by destruct Hc.
        * apply eq_None_not_Some in Hc.
          destruct (decide (1000 ≤ _)).
          -- by rewrite decide_True.
          -- rewrite decide_False; [done|]. by intros (_ & _ & ?). }
  unfold length_hint in Hcount.
  split; [|split; [|split]].
  - intros Hh. by rewrite Hh in Hcount.
  - intros Hh. by rewrite Hh in Hcount.
  - by rewrite call_warnings.
  - intros l σ. apply process_map_goes_on.
Qed.

Lemma warning_exactly_when_unchunked_witness :
  has_length_hint Sample.env = true ∧
  warnings (trace (call Sample.env ProcessPoolExecutor Sample.double
                     Sample.announced ∅ ∅).2) = 1.
Proof.
  assert (has_length_hint Sample.env = true) as Hh by done.
  split; [exact Hh|].
  pose proof (warning_exactly_when_unchunked Sample.env ProcessPoolExecutor
                Sample.double Sample.announced ∅ ∅) as H.
  cbv zeta in H. destruct H as [H _].
  rewrite (H Hh). by vm_compute.
Defined.

Example process_map_warns_once :
  warnings (trace (call Sample.env ProcessPoolExecutor Sample.double
                     [Lazy (Sample.ints [5]%Z) (Some 1000)]
                     {[ "total" := VInt 1 ]} ∅).2) = 1.
Proof. by vm_compute. Qed.

Example chunksize_silences_the_warning :
  warnings (trace (call Sample.env ProcessPoolExecutor Sample.double
                     [Lazy (Sample.ints [5]%Z) (Some 1000)]
                     {[ "total" := VInt 1; "chunksize" := VInt 4 ]} ∅).2) = 0.
Proof. by vm_compute. Qed.

Lemma warning_only_warns env k its d ev :
  ev ∈ Summary.warning env k its d → ∃ n, ev = EWarn "RuntimeWarning" n.
Proof.
  unfold Summary.warning. intros H.
  repeat case_match; in_list; eauto.
Qed.

(** What a pool was built with, in terms of the copied options. *)
Lemma call_pool_event env k fn its d h k' pk :
  EPoolInit k' pk ∈ trace (call env k fn its d h).2 →
  ∃ d' n, dict_copy d d' ∧ Summary.default_max_workers env = Ok n ∧
    k' = k ∧ max_workers pk = default n (d' !! "max_workers") ∧
    if supports_initializer env
    then ∃ c, default (VClass tqdm_auto) (d' !! "tqdm_class") = VClass c ∧
              initializer pk = Some (SetLock c) ∧
              initargs pk = Some [ClassLock c]
    else initializer pk = None ∧ initargs pk = None.
Proof.
  intros [Hw|(d' & Hcopy & Hev)]%call_event.
  { by destruct (warning_only_warns _ _ _ _ _ Hw). }
  destruct (executor_map_events _ _ _ _ _ _ Hev)
    as (d1 & Hd1 & [?|(n & Hn & H)]); [done|].
  exists d', n. unfold supports_initializer.
  rewrite !(with_total_lookup _ _ _ _ Hd1) in H by done. simpl in H.
  destruct H as [(c & _ & _ & ?)|[(c & Hv & Hc & ?)|
    [(Hv & ?)|[?|[?|(c & _ & ?)]]]]]; simplify_eq; rewrite Hv; eauto 10.
Qed.

Lemma default_max_workers_detected env n :
  cpu_module env = OsCpuCount (Some n) ∨
  cpu_module env = MultiprocessingCpuCount (Some n) →
  Summary.default_max_workers env = Ok (VInt (32 `min` (Z.of_nat n + 4))).
Proof. unfold Summary.default_max_workers. by intros [->| ->]. Qed.

(** C3.  The default is not applied when the detection fails at run
    time.  With [os.cpu_count()] answering [None] (the count is
    undetermined), [thread_map(double, [1, 2, 3], desc="bar")] raises
    [TypeError] at [cpu_count() + 4] of line 36 and has done nothing but
    query the count: no pool is built, where the fallback of lines 13-14
    would have given [min(32, 4 + 4) = 8]. *)
Lemma cpu_count_none_is_not_defaulted :
  Sample.described !! "max_workers" = None ∧
  cpu_module Sample.env_unknown_cpu = OsCpuCount None ∧
  (call Sample.env_unknown_cpu ThreadPoolExecutor Sample.double
     [Sample.three] Sample.described ∅).1 = Raises TypeError ∧
  trace (call Sample.env_unknown_cpu ThreadPoolExecutor Sample.double
           [Sample.three] Sample.described ∅).2 = [ECpuCount].
Proof.
  split; [done|]. split; [done|]. split; by vm_compute.
Qed.

(** What does hold of the default.  When the caller leaves
    [max_workers] out, every pool the call builds is built with
    [max_workers = min(32, n + 4)], [n] being the CPU count that was
    detected; when neither [os] nor [multiprocessing] provides
    [cpu_count], it is built with [min(32, 4 + 4) = 8].  And the pool is
    built as soon as the options can be copied, [total] is known, the CPU
    count is a number and [tqdm_class] is a class. *)
Theorem default_max_workers_used env k fn its
    (options : gmap string pyval) h :
  options !! "max_workers" = None →
  let evs := trace (call env k fn its options h).2 in
  (∀ n k' pk,
     cpu_module env = OsCpuCount (Some n) ∨
     cpu_module env = MultiprocessingCpuCount (Some n) →
     EPoolInit k' pk ∈ evs →
     max_workers pk = VInt (32 `min` (Z.of_nat n + 4))) ∧
  (∀ k' pk,
     cpu_module env = NoCpuModule → EPoolInit k' pk ∈ evs →
     max_workers pk = VInt 8) ∧
  (copyable env h options = true →
   Summary.total_known its options = true →
   Summary.cpu_known env = true →
   Summary.class_given options = true →
   ∃ pk, EPoolInit k pk ∈ evs).
Proof.
  intros Hnone evs. split; [|split].
  - intros n k' pk Hcpu Hev.
    destruct (call_pool_event _ _ _ _ _ _ _ _ Hev)
      as (d' & w & Hcopy & Hw & _ & -> & _).
    rewrite (dict_copy_None _ _ _ Hcopy Hnone). simpl.
    rewrite (default_max_workers_detected _ _ Hcpu) in Hw. by simplify_eq.
  - intros k' pk Hcpu Hev.
    destruct (call_pool_event _ _ _ _ _ _ _ _ Hev)
      as (d' & w & Hcopy & Hw & _ & -> & _).
    rewrite (dict_copy_None _ _ _ Hcopy Hnone). simpl.
    unfold Summary.default_max_workers in Hw. rewrite Hcpu in Hw.
    by simplify_eq.
  - intros Hc Ht Hcpu Hcls. subst evs.
    destruct (call_copied env k fn its options h Hc) as (d' & Hcopy & _ & ->).
    destruct (executor_map_pool_event env k fn its d') as [pk Hpk];
      [by rewrite <-(total_known_copy its options d')|done|
       by eapply class_given_copy|].
    exists pk. apply elem_of_app. by right.
Qed.

Lemma default_max_workers_used_witness :
  Sample.described !! "max_workers" = None ∧
  cpu_module Sample.env = OsCpuCount (Some 8) ∧
  ∃ pk,
    EPoolInit ThreadPoolExecutor pk ∈
      trace (call Sample.env ThreadPoolExecutor Sample.double
               [Sample.three] Sample.described ∅).2 ∧
    max_workers pk = VInt (32 `min` (Z.of_nat 8 + 4)).
Proof.
  assert (Sample.described !! "max_workers" = None) as Hnone by done.
  pose proof (default_max_workers_used Sample.env ThreadPoolExecutor
                Sample.double [Sample.three] Sample.described ∅ Hnone) as H.
  cbv zeta in H. destruct H as (Hdetected & _ & Hbuilt).
  destruct Hbuilt as [pk Hpk]; [by vm_compute..|].
  split; [exact Hnone|]. split; [done|]. exists pk. split; [exact Hpk|].
  apply (Hdetected 8 ThreadPoolExecutor pk); [by left|exact Hpk].
Defined.

Example eight_cores_give_twelve_workers :
  trace (call Sample.env ThreadPoolExecutor Sample.double
           [Sized (Sample.ints [1; 2; 3]%Z)] ∅ ∅).2 !! 2 =
  Some (EPoolInit ThreadPoolExecutor
          (PoolKwargs (VInt 12) (Some (SetLock tqdm_auto))
             (Some [ClassLock tqdm_auto]))).
Proof. by vm_compute. Qed.

Lemma sized_first_is_finite its xs :
  its !! 0 = Some (Sized xs) → ∃ n, shortest its = Some n.
Proof.
  destruct its as [|it rest]; [done|]. simpl. intros; simplify_eq. simpl.
  destruct (shortest rest); eauto.
Qed.

(** What a display was configured with, in terms of the copied
    options. *)
Lemma call_display_event env k fn its d h c kw :
  EDisplayInit c kw ∈ trace (call env k fn its d h).2 →
  ∃ d' d1, dict_copy d d' ∧ Summary.with_total its d' = Ok d1 ∧
    kw = delete "chunksize" (delete "max_workers" (delete "tqdm_class" d1)).
Proof.
  intros [Hw|(d' & Hcopy & Hev)]%call_event.
  { by destruct (warning_only_warns _ _ _ _ _ Hw). }
  destruct (executor_map_events _ _ _ _ _ _ Hev)
    as (d1 & Hd1 & [?|(n & Hn & H)]); [done|].
  exists d', d1. split; [done|]. split; [done|]. simpl in H.
  destruct H as [(c' & _ & _ & ?)|[(c' & _ & _ & ?)|
    [(_ & ?)|[?|[?|(c' & _ & ?)]]]]]; by simplify_eq.
Qed.

(** C4, as the specification has it, names the wrong origin for the
    error: [thread_map(double, iter([1, 2]))] fails with [TypeError], and
    no display was ever constructed that could have raised it. *)
Lemma length_error_not_from_display :
  (call Sample.env ThreadPoolExecutor Sample.double
     [Lazy (Sample.ints [1; 2]%Z) None] ∅ ∅).1 = Raises TypeError ∧
  ¬ ∃ c kw, EDisplayInit c kw ∈
      trace (call Sample.env ThreadPoolExecutor Sample.double
               [Lazy (Sample.ints [1; 2]%Z) None] ∅ ∅).2.
Proof.
  split; [by vm_compute|]. intros (c & kw & H).
  vm_compute in H. by apply elem_of_nil in H.
Qed.

(** C4, amended.  When the caller leaves [total] out, a display that is
    configured is configured with [total = len(iterables[0])]; and when
    the first input sequence has no [len], the call fails with [TypeError]
    raised by the adapter's own [len(iterables[0])], before the CPU count,
    the pool or the display is touched: the log holds nothing but the
    warning of [process_map], if that.  And a well-configured call does
    configure the display. *)
Theorem total_defaults_to_first_length env k fn its
    (options : gmap string pyval) h :
  options !! "total" = None →
  let r := call env k fn its options h in
  (∀ c kw, EDisplayInit c kw ∈ trace r.2 →
     ∃ xs, its !! 0 = Some (Sized xs) ∧
           kw !! "total" = Some (VInt (Z.of_nat (length xs)))) ∧
  (∀ first, its !! 0 = Some first → len first = Err TypeError →
     copyable env h options = true →
     r.1 = Raises TypeError ∧ ∀ ev, ev ∈ trace r.2 → is_warning ev = true) ∧
  (Summary.well_configured env k its options h = true →
   ∃ c kw, EDisplayInit c kw ∈ trace r.2).
Proof.
  intros Hnone r. split; [|split].
  - intros c kw Hev.
    destruct (call_display_event _ _ _ _ _ _ _ _ Hev)
      as (d' & d1 & Hcopy & Hd1 & ->).
    pose proof (dict_copy_None _ _ _ Hcopy Hnone) as Hnone'.
    unfold Summary.with_total in Hd1.
    rewrite decide_False in Hd1 by (rewrite Hnone'; by intros [? ?]).
    destruct (its !! 0) as [[xs| |]|]; try done. simpl in Hd1. simplify_eq.
    exists xs. split; [done|].
    by rewrite !lookup_delete_ne, lookup_insert_eq by done.
  - intros first Hfirst Hlen Hc. subst r.
    destruct (call_copied env k fn its options h Hc) as (d' & Hcopy & -> & ->).
    pose proof (dict_copy_None _ _ _ Hcopy Hnone) as Hnone'.
    unfold Summary.executor_map, Summary.with_total.
    rewrite decide_False by (rewrite Hnone'; by intros [? ?]).
    rewrite Hfirst, Hlen. simpl. split; [done|].
    rewrite app_nil_r. intros ev Hev.
    by destruct (warning_only_warns _ _ _ _ _ Hev) as [n ->].
  - intros Hwc. pose proof Hwc as
      (Hc & Ht & Hcpu & Hcls & Hw & Hcs)%well_configured_parts.
    subst r.
    destruct (call_copied env k fn its options h Hc) as (d' & Hcopy & _ & ->).
    assert (∃ n, shortest its = Some n) as [n Hn].
    { unfold Summary.total_known in Ht. rewrite Hnone in Ht.
      destruct (its !! 0) as [[xs| |]|] eqn:Hfirst; try done.
      by eapply sized_first_is_finite. }
    destruct (executor_map_display_event env k fn its d' n) as (c & kw & Hev);
      [by rewrite <-(total_known_copy its options d')|done|
       by eapply class_given_copy|by eapply workers_valid_copy|
       by eapply chunksize_valid_copy|done|].
    exists c, kw. apply elem_of_app. by right.
Qed.

Lemma total_defaults_to_first_length_witness :
  Sample.described !! "total" = None ∧
  ∃ c kw,
    EDisplayInit c kw ∈
      trace (call Sample.env ThreadPoolExecutor Sample.double
               [Sample.three] Sample.described ∅).2 ∧
    kw !! "total" = Some (VInt 3).
Proof.
  assert (Sample.described !! "total" = None) as Hnone by done.
  pose proof (total_defaults_to_first_length Sample.env ThreadPoolExecutor
                Sample.double [Sample.three] Sample.described ∅ Hnone) as H.
  cbv zeta in H. destruct H as (Hconfigured & _ & Hshown).
  destruct Hshown as (c & kw & Hev); [by vm_compute|].
  split; [exact Hnone|]. exists c, kw. split; [exact Hev|].
  destruct (Hconfigured c kw Hev) as (xs & Hxs & Htotal).
  cbv in Hxs. by simplify_eq.
Defined.

Example display_gets_the_length :
  trace (call Sample.env ThreadPoolExecutor Sample.double
           [Sized (Sample.ints [1; 2; 3]%Z)] {[ "desc" := VStr "bar" ]} ∅).2
    !! 4 =
  Some (EDisplayInit tqdm_auto {[ "desc" := VStr "bar"; "total" := VInt 3 ]}).
Proof. by vm_compute. Qed.

(** C5, as the specification has it, fails on unbounded sequences:
    [thread_map(double, itertools.count(), total=3)] never returns, so no
    list of length [total] comes back. *)
Lemma total_does_not_bound_the_result :
  (call Sample.env ThreadPoolExecutor Sample.double
     [Sample.count] {[ "total" := VInt 3 ]} ∅).1 = Hangs ∧
  ¬ ∃ result,
      (call Sample.env ThreadPoolExecutor Sample.double
         [Sample.count] {[ "total" := VInt 3 ]} ∅).1 = Returns result ∧
      length result = 3.
Proof.
  assert ((call Sample.env ThreadPoolExecutor Sample.double
             [Sample.count] {[ "total" := VInt 3 ]} ∅).1 = Hangs) as H
    by by vm_compute.
  rewrite H. split; [done|]. by intros (result & ? & _).
Qed.

(** C5, amended.  The list a call returns is as long as the shortest
    input sequence (where [zip] stops), whatever [total], [max_workers]
    and [chunksize] are; [total] never shortens it, and when every
    sequence is unbounded no list is returned at all.  And a
    well-configured call on which [fn] returns everywhere does return a
    list of that length. *)
Theorem result_length_is_shortest env k fn its
    (options : gmap string pyval) h :
  its ≠ [] →
  let outcome := (call env k fn its options h).1 in
  (∀ result, outcome = Returns result →
     shortest its = Some (length result)) ∧
  (shortest its = None → ∀ result, outcome ≠ Returns result) ∧
  (∀ n, shortest its = Some n →
     Summary.well_configured env k its options h = true →
     Summary.accepting env →
     (∀ i, i < n → ∃ v, fn (row its i) = Ok v) →
     ∃ result, outcome = Returns result ∧ length result = n).
Proof.
  intros Hne outcome.
  assert (∀ result, outcome = Returns result →
            shortest its = Some (length result)) as Hlen.
  { intros result Hres. apply call_returns in Hres.
    by apply (eager_map_length fn). }
  split; [done|]. split.
  - intros Hnone result Hres. apply Hlen in Hres. congruence.
  - intros n Hn Hwc Hacc Hfn.
    destruct (eager_map_Returns fn its n Hn Hfn) as [result Hres].
    assert (outcome = Returns result) as Hout
      by (subst outcome; by rewrite (call_total _ _ _ _ _ _ Hwc Hacc)).
    exists result. split; [done|].
    apply Hlen in Hout. congruence.
Qed.

Lemma result_length_is_shortest_witness :
  Sample.mixed ≠ [] ∧
  (∀ result,
     (call Sample.env ProcessPoolExecutor Sample.add Sample.mixed
        Sample.counted ∅).1 = Returns result →
     shortest Sample.mixed = Some (length result)) ∧
  ∃ result,
    (call Sample.env ProcessPoolExecutor Sample.add Sample.mixed
       Sample.counted ∅).1 = Returns result ∧
    length result = 2.
Proof.
  assert (Sample.mixed ≠ []) as Hne by done.
  pose proof (result_length_is_shortest Sample.env ProcessPoolExecutor
                Sample.add Sample.mixed Sample.counted ∅ Hne) as H.
  cbv zeta in H. destruct H as (Hlen & _ & Htotal).
  split; [exact Hne|]. split; [exact Hlen|].
  apply Htotal; [by vm_compute|by vm_compute|done|].
  intros [|[|i]] Hi; [by eexists|by eexists|lia].
Defined.

Example total_does_not_shorten_the_result :
  (call Sample.env ThreadPoolExecutor Sample.double
     [Lazy (Sample.ints [1; 2; 3]%Z) None] {[ "total" := VInt 2 ]} ∅).1
  = Returns (Sample.ints [2; 4; 6]%Z).
Proof. by vm_compute. Qed.



(** C7.  Two calls with the same [fn] and the same input sequences that
    differ in [max_workers] and [chunksize] return equal lists whenever
    both return; and when both are well configured they come out the same
    altogether: the same list, or the same exception. *)
Theorem workers_and_chunksize_do_not_change_results env k fn its
    (options : gmap string pyval) h (w1 w2 c1 c2 : pyval) :
  let given w c := <["max_workers" := w]> (<["chunksize" := c]> options) in
  let outcome w c := (call env k fn its (given w c) h).1 in
  (∀ r1 r2, outcome w1 c1 = Returns r1 → outcome w2 c2 = Returns r2 →
     r1 = r2) ∧
  (Summary.well_configured env k its (given w1 c1) h = true →
   Summary.well_configured env k its (given w2 c2) h = true →
   Summary.accepting env →
   outcome w1 c1 = outcome w2 c2).
Proof.
  intros given outcome. split.
  - intros r1 r2 H1%call_returns H2%call_returns. congruence.
  - intros H1 H2 Hacc. subst outcome. cbv beta.
    by rewrite (call_total _ _ _ _ _ _ H1 Hacc),
      (call_total _ _ _ _ _ _ H2 Hacc).
Qed.

Lemma workers_and_chunksize_do_not_change_results_witness :
  Summary.well_configured Sample.env ProcessPoolExecutor Sample.five
    (<["max_workers" := VInt 1]> (<["chunksize" := VInt 1]> ∅)) ∅ = true ∧
  Summary.well_configured Sample.env ProcessPoolExecutor Sample.five
    (<["max_workers" := VInt 7]> (<["chunksize" := VInt 2]> ∅)) ∅ = true ∧
  Summary.accepting Sample.env ∧
  (call Sample.env ProcessPoolExecutor Sample.double Sample.five
     (<["max_workers" := VInt 1]> (<["chunksize" := VInt 1]> ∅)) ∅).1 =
  (call Sample.env ProcessPoolExecutor Sample.double Sample.five
     (<["max_workers" := VInt 7]> (<["chunksize" := VInt 2]> ∅)) ∅).1.
Proof.
  assert (Summary.accepting Sample.env) as Hacc by done.
  split; [by vm_compute|]. split; [by vm_compute|]. split; [exact Hacc|].
  apply (workers_and_chunksize_do_not_change_results Sample.env
           ProcessPoolExecutor Sample.double Sample.five ∅ ∅
           (VInt 1) (VInt 7) (VInt 1) (VInt 2));
    [by vm_compute|by vm_compute|exact Hacc].
Defined.

Lemma executor_map_lock_event env k fn its d k' pk :
  supports_initializer env = true →
  EPoolInit k' pk ∈ (Summary.executor_map env k fn its d).2 →
  ∃ c, initializer pk = Some (SetLock c) ∧
       EGetLock c ∈ (Summary.executor_map env k fn its d).2.
Proof.
  unfold supports_initializer, Summary.executor_map, Summary.resolved,
    Summary.pool_arguments.
  intros Hv H. rewrite Hv in *.
  destruct (Summary.with_total its d) as [d1|]; simpl in *; [|in_list].
  destruct (Summary.default_max_workers env) as [n|]; simpl in *;
    [|in_list; done].
  destruct (default (VClass tqdm_auto) (d1 !! "tqdm_class"))
    as [| | | |c|]; simpl in *; try (in_list; done).
  exists c.
  destruct (check_max_workers _); simpl in *.
  - split; [|right; by left]. in_list; by simplify_eq.
  - split; [|right; by left]. in_list; try by simplify_eq.
    apply in_pool_events in H as [?|[?|(? & _ & ?)]]; done.
Qed.

Lemma call_lock_event env k fn its d h c :
  EGetLock c ∈ trace (call env k fn its d h).2 →
  supports_initializer env = true.
Proof.
  intros [Hw|(d' & Hcopy & Hev)]%call_event.
  { by destruct (warning_only_warns _ _ _ _ _ Hw). }
  destruct (executor_map_events _ _ _ _ _ _ Hev)
    as (d1 & Hd1 & [?|(n & Hn & H)]); [done|]. simpl in H.
  by destruct H as [(c' & Hv & _ & ?)|[(c' & _ & _ & ?)|
    [(_ & ?)|[?|[?|(c' & _ & ?)]]]]].
Qed.

(** The class a call displays with: the caller's [tqdm_class], or
    [tqdm.auto.tqdm]. *)
Lemma copied_class d d' c :
  dict_copy d d' →
  default (VClass tqdm_auto) (d' !! "tqdm_class") = VClass c →
  d !! "tqdm_class" = Some (VClass c) ∨
  (d !! "tqdm_class" = None ∧ c = tqdm_auto).
Proof.
  intros Hcopy. specialize (Hcopy "tqdm_class").
  destruct Hcopy as [x y Hxy|]; simpl; intros Hc; [left|right; by simplify_eq].
  subst y. destruct x; simpl in Hxy; try by simplify_eq.
  by destruct Hxy.
Qed.

(** C8.  Where the pool takes an initializer (Python 3.7 and later), every
    pool the call builds is built with [initializer = tqdm_class.set_lock]
    and [initargs = (tqdm_class.get_lock(),)], for the display class the
    call uses, whose lock was asked for; where it does not, the pool is
    built with [max_workers] alone and the lock is never asked for. *)
Theorem pool_shares_the_display_lock env k fn its
    (options : gmap string pyval) h k' pk :
  let evs := trace (call env k fn its options h).2 in
  EPoolInit k' pk ∈ evs →
  if supports_initializer env
  then ∃ c,
         (options !! "tqdm_class" = Some (VClass c) ∨
          options !! "tqdm_class" = None ∧ c = tqdm_auto) ∧
         initializer pk = Some (SetLock c) ∧
         initargs pk = Some [ClassLock c] ∧
         EGetLock c ∈ evs
  else initializer pk = None ∧ initargs pk = None ∧ ∀ c, EGetLock c ∉ evs.
Proof.
  intros evs Hev.
  destruct (call_pool_event _ _ _ _ _ _ _ _ Hev)
    as (d' & n & Hcopy & _ & _ & _ & Hinit).
  destruct (supports_initializer env) eqn:Hv.
  - destruct Hinit as (c & Hc & Hi & Ha). exists c.
    split; [by eapply copied_class|]. split; [done|]. split; [done|].
    subst evs.
    destruct (call_run env k fn its options h)
      as [_ [(_ & Ht & _)|(d'' & _ & _ & Ht)]]; rewrite Ht in Hev |- *.
    { by destruct (warning_only_warns _ _ _ _ _ Hev). }
    apply elem_of_app in Hev as [Hw|Hev].
    { by destruct (warning_only_warns _ _ _ _ _ Hw). }
    destruct (executor_map_lock_event _ _ _ _ _ _ _ Hv Hev) as (c' & Hi' & Hl).
    rewrite Hi in Hi'. simplify_eq. apply elem_of_app. by right.
  - destruct Hinit as [Hi Ha]. split; [done|]. split; [done|].
    intros c Hc. apply call_lock_event in Hc. congruence.
Qed.

Lemma pool_shares_the_display_lock_witness :
  EPoolInit ProcessPoolExecutor
    (PoolKwargs (VInt 12) (Some (SetLock 5)) (Some [ClassLock 5])) ∈
    trace (call Sample.env ProcessPoolExecutor Sample.double
             [Sample.three] Sample.with_class ∅).2 ∧
  EGetLock 5 ∈
    trace (call Sample.env ProcessPoolExecutor Sample.double
             [Sample.three] Sample.with_class ∅).2.
Proof.
  assert (EPoolInit ProcessPoolExecutor
            (PoolKwargs (VInt 12) (Some (SetLock 5)) (Some [ClassLock 5])) ∈
          trace (call Sample.env ProcessPoolExecutor Sample.double
                   [Sample.three] Sample.with_class ∅).2) as Hev.
  { vm_compute. do 2 right. left. }
  split; [exact Hev|].
  pose proof (pool_shares_the_display_lock Sample.env ProcessPoolExecutor
                Sample.double [Sample.three] Sample.with_class ∅ _ _ Hev)
    as H.
  change (supports_initializer Sample.env) with true in H.
  destruct H as (c & _ & Hc & _ & Hlock). simpl in Hc. by simplify_eq.
Defined.

(** C9.  A call leaves the caller's dictionary [tqdm_kwargs] and every
    other object that was in the store as it found them, whether it
    returns or raises: the pops and the default [total] land in the deep
    copy, a dictionary that did not exist before. *)
Theorem caller_dictionary_untouched env k fn its tqdm_kwargs σ
    (d : gmap string pyval) :
  heap σ !! tqdm_kwargs = Some (ODict d) →
  let after := heap (_executor_map env k fn its tqdm_kwargs σ).2 in
  let after_entry := heap (adapter env k fn its tqdm_kwargs σ).2 in
  (heap σ ⊆ after ∧ after !! tqdm_kwargs = Some (ODict d)) ∧
  (heap σ ⊆ after_entry ∧ after_entry !! tqdm_kwargs = Some (ODict d)).
Proof.
  intros Hl after after_entry.
  assert (heap σ ⊆ after) as Hsub.
  { subst after.
    destruct (executor_map_run env k fn its tqdm_kwargs σ d Hl)
      as (hf & Hsub & [[-> _]|(d' & _ & ->)]); done. }
  assert (heap σ ⊆ after_entry) as Hsub'.
  { subst after_entry. rewrite (adapter_unpacked env k fn its _ d σ Hl).
    by destruct (unpacked_run env k fn its tqdm_kwargs d
                   (log (Summary.warning env k its d) σ) Hl) as [? _]. }
  split; (split; [done|by eapply lookup_weaken]).
Qed.

Lemma caller_dictionary_untouched_witness :
  heap Sample.caller !! 0 = Some (ODict Sample.tqdm_kwargs) ∧
  heap Sample.caller ⊆
    heap (_executor_map Sample.env ThreadPoolExecutor Sample.double
            [Sample.three] 0 Sample.caller).2.
Proof.
  assert (heap Sample.caller !! 0 = Some (ODict Sample.tqdm_kwargs)) as Hl
    by by vm_compute.
  split; [exact Hl|].
  pose proof (caller_dictionary_untouched Sample.env ThreadPoolExecutor
                Sample.double [Sample.three] 0 Sample.caller
                Sample.tqdm_kwargs Hl) as H.
  cbv zeta in H. by destruct H as [[H _] _].
Defined.

Example pops_land_in_the_copy :
  heap (_executor_map Sample.env ThreadPoolExecutor Sample.double
          [Sample.three] 0 Sample.caller).2 =
  {[ 0 := ODict Sample.tqdm_kwargs;
     1 := OList [VStr "loss"];
     2 := ODict {[ "postfix" := VRef 3; "total" := VInt 3 ]};
     3 := OList [VStr "loss"] ]}.
Proof. vm_compute. reflexivity. Qed.



(** * Further properties of the adapter *)

(** ** The order of the steps *)

Ltac in_order :=
  simpl;
  repeat match goal with
         | |- StronglySorted _ _ => constructor
         | |- Forall _ _ => constructor
         end; simpl; lia.

(** The events of [_executor_map] come in the order of its lines, none
    of them twice. *)
Lemma executor_map_steps env k fn its d :
  StronglySorted lt (step <$> (Summary.executor_map env k fn its d).2) ∧
  Forall (λ ev, 1 ≤ step ev) (Summary.executor_map env k fn its d).2.
Proof.
  unfold Summary.executor_map, Summary.resolved, Summary.pool_arguments,
    Summary.in_pool.
  repeat case_match; simplify_eq; split; in_order.
Qed.

(** Every pool event of [_executor_map] is about the pool kind it was
    called with. *)
Lemma executor_map_pool_kind env k fn its d ev :
  ev ∈ (Summary.executor_map env k fn its d).2 →
  match ev with
  | EPoolInit k' _ | EPoolMap k' _ | EPoolShutdown k' => k' = k
  | EWarn _ _ => False
  | _ => True
  end.
Proof.
  intros Hev.
  destruct (executor_map_events _ _ _ _ _ _ Hev)
    as (d1 & _ & [->|(n & _ & H)]); [done|]. simpl in H.
  by destruct H as [(c & _ & _ & ->)|[(c & _ & _ & ->)|
    [(_ & ->)|[->|[->|(c & _ & ->)]]]]].
Qed.

(** The warning, when there is one, is one event of [process_map]. *)
Lemma warning_cases env k its d :
  Summary.warning env k its d = [] ∨
  k = ProcessPoolExecutor ∧ its ≠ [] ∧ d !! "chunksize" = None ∧
  let n := max_list ((λ it, length_hint env it 0) <$> its) in
  1000 ≤ n ∧ Summary.warning env k its d = [EWarn "RuntimeWarning" n].
Proof.
  unfold Summary.warning. destruct k; [by left|].
  case_bool_decide as Hits; [by left|].
  destruct (decide (is_Some (d !! "chunksize"))) as [Hc|Hc]; [by left|].
  apply eq_None_not_Some in Hc.
  destruct (decide (1000 ≤ _)); [right|by left]. done.
Qed.

(** X1.  Whatever a call does, it does in the order of the source text
    and at most once: the warning of [process_map] first, then the query
    of the CPU count, the display lock, the pool constructor, [ex.map],
    the display constructor and the shutdown of the pool, each of them
    present or not.  The pool events are about the pool kind of the entry
    point, and only [process_map] warns. *)
Theorem steps_in_order env k fn its (options : gmap string pyval) h :
  let evs := trace (call env k fn its options h).2 in
  StronglySorted lt (step <$> evs) ∧
  (∀ ev, ev ∈ evs →
     match ev with
     | EPoolInit k' _ | EPoolMap k' _ | EPoolShutdown k' => k' = k
     | EWarn _ _ => k = ProcessPoolExecutor
     | _ => True
     end).
Proof.
  cbv zeta. split.
  - destruct (call_run env k fn its options h)
      as [_ [(_ & -> & _)|(d' & _ & _ & ->)]].
    + destruct (warning_cases env k its options)
        as [->|(_ & _ & _ & _ & ->)]; in_order.
    + destruct (executor_map_steps env k fn its d') as [Hs Hf].
      destruct (warning_cases env k its options)
        as [->|(_ & _ & _ & _ & ->)]; [done|].
      simpl. constructor; [done|].
      apply Forall_fmap. eapply Forall_impl; [exact Hf|].
      simpl. intros ev Hev. lia.
  - intros ev [Hw|(d' & _ & Hev)]%call_event.
    + destruct (warning_cases env k its options)
        as [Hnil|(-> & _ & _ & _ & Hone)].
      * rewrite Hnil in Hw. by apply elem_of_nil in Hw.
      * rewrite Hone in Hw. apply list_elem_of_singleton in Hw. by subst ev.
    + apply executor_map_pool_kind in Hev. by destruct ev.
Qed.

Lemma steps_in_order_witness :
  ∃ k' chunksize,
    EPoolMap k' chunksize ∈
      trace (call Sample.env ThreadPoolExecutor Sample.double
               [Sample.three] Sample.described ∅).2 ∧
    k' = ThreadPoolExecutor.
Proof.
  exists ThreadPoolExecutor, (VInt 1).
  assert (EPoolMap ThreadPoolExecutor (VInt 1) ∈
          trace (call Sample.env ThreadPoolExecutor Sample.double
                   [Sample.three] Sample.described ∅).2) as Hev.
  { apply (list_elem_of_lookup_2 _ 3). by vm_compute. }
  split; [exact Hev|].
  pose proof (steps_in_order Sample.env ThreadPoolExecutor Sample.double
                [Sample.three] Sample.described ∅) as H.
  cbv zeta in H. destruct H as [_ H].
  exact (H _ Hev).
Defined.

(** ** The [with] block *)

(** Once [ex.map] was called, [_executor_map] ends with the shutdown of
    the pool unless it hangs; and nothing is shut down that [ex.map] was
    not called on. *)
Lemma executor_map_last env k fn its d :
  let r := Summary.executor_map env k fn its d in
  (∀ k' cs, EPoolMap k' cs ∈ r.2 → r.1 ≠ Hangs →
     last r.2 = Some (EPoolShutdown k)) ∧
  (∀ k', EPoolShutdown k' ∈ r.2 →
     ∃ cs, EPoolMap k cs ∈ r.2 ∧ r.1 ≠ Hangs).
Proof.
  unfold Summary.executor_map, Summary.resolved, Summary.pool_arguments,
    Summary.in_pool.
  repeat case_match; simplify_eq; simpl; split.
  all: try (intros k' cs' Hev Hr; in_list; by simplify_eq).
  all: intros k' Hev; in_list; simplify_eq.
  all: eexists; split; [rewrite !elem_of_cons; eauto 10|done].
Qed.

Lemma warning_is_warning env k its d ev :
  ev ∈ Summary.warning env k its d → is_warning ev = true.
Proof. intros H. by destruct (warning_only_warns _ _ _ _ _ H) as [n ->]. Qed.

(** X2.  The pool does not outlive the call.  Once [ex.map] was called
    on the pool, a call that returns or raises (because [fn] raised,
    because [chunksize] was rejected or because the display could not be
    constructed) has shut the pool down, and that is the last thing it
    did; and a pool is only shut down after [ex.map] was called on it, so
    not when its constructor raised. *)
Theorem pool_is_shut_down env k fn its (options : gmap string pyval) h :
  let r := call env k fn its options h in
  (∀ k' chunksize, EPoolMap k' chunksize ∈ trace r.2 → r.1 ≠ Hangs →
     last (trace r.2) = Some (EPoolShutdown k)) ∧
  (∀ k', EPoolShutdown k' ∈ trace r.2 →
     ∃ chunksize, EPoolMap k chunksize ∈ trace r.2 ∧ r.1 ≠ Hangs).
Proof.
  cbv zeta.
  destruct (call_run env k fn its options h)
    as [_ [(_ & Ht & _)|(d' & _ & Ho & Ht)]]; rewrite Ht.
  { split; [intros k' cs Hev|intros k' Hev]; by apply warning_is_warning in Hev. }
  rewrite Ho.
  destruct (executor_map_last env k fn its d') as [Hlast Hmap].
  split.
  - intros k' cs [Hev|Hev]%elem_of_app Hr; [by apply warning_is_warning in Hev|].
    by rewrite last_app, (Hlast k' cs Hev Hr).
  - intros k' [Hev|Hev]%elem_of_app; [by apply warning_is_warning in Hev|].
    destruct (Hmap k' Hev) as (cs & Hcs & Hr). exists cs.
    split; [|done]. apply elem_of_app. by right.
Qed.

Lemma pool_is_shut_down_witness :
  EPoolMap ProcessPoolExecutor (VInt 2) ∈
    trace (call Sample.env ProcessPoolExecutor Sample.add Sample.failing
             Sample.chunked ∅).2 ∧
  (call Sample.env ProcessPoolExecutor Sample.add Sample.failing
     Sample.chunked ∅).1 = Raises (UserError 7) ∧
  last (trace (call Sample.env ProcessPoolExecutor Sample.add Sample.failing
                 Sample.chunked ∅).2) = Some (EPoolShutdown ProcessPoolExecutor).
Proof.
  assert (EPoolMap ProcessPoolExecutor (VInt 2) ∈
          trace (call Sample.env ProcessPoolExecutor Sample.add Sample.failing
                   Sample.chunked ∅).2) as Hev.
  { vm_compute. do 3 right. left. }
  assert ((call Sample.env ProcessPoolExecutor Sample.add Sample.failing
             Sample.chunked ∅).1 = Raises (UserError 7)) as Hr
    by by vm_compute.
  split; [exact Hev|]. split; [exact Hr|].
  pose proof (pool_is_shut_down Sample.env ProcessPoolExecutor Sample.add
                Sample.failing Sample.chunked ∅) as H.
  cbv zeta in H. destruct H as [H _].
  apply (H _ _ Hev). by rewrite Hr.
Defined.

(** ** What reaches the pool and the display *)

(** Every event of [_executor_map] in a call, with the copied options
    it was computed from. *)
Lemma call_executor_event env k fn its d h ev :
  ev ∈ trace (call env k fn its d h).2 → is_warning ev = false →
  ∃ d' d1, dict_copy d d' ∧ Summary.with_total its d' = Ok d1 ∧
    ev ∈ (Summary.executor_map env k fn its d').2.
Proof.
  intros [Hw|(d' & Hcopy & Hev)]%call_event Hnw.
  { apply warning_is_warning in Hw. congruence. }
  destruct (executor_map_events _ _ _ _ _ _ Hev) as (d1 & Hd1 & _). eauto.
Qed.

Lemma call_map_event env k fn its d h k' cs :
  EPoolMap k' cs ∈ trace (call env k fn its d h).2 →
  ∃ d', dict_copy d d' ∧ k' = k ∧ cs = default (VInt 1) (d' !! "chunksize").
Proof.
  intros (d' & d1' & Hcopy & _ & Hev)%call_executor_event; [|done].
  destruct (executor_map_events _ _ _ _ _ _ Hev)
    as (d1 & Hd1 & [?|(n & Hn & H)]); [done|].
  exists d'. split; [done|].
  rewrite !(with_total_lookup _ _ _ _ Hd1) in H by done. simpl in H.
  destruct H as [(c & _ & _ & ?)|[(c & _ & _ & ?)|
    [(_ & ?)|[?|[?|(c & _ & ?)]]]]]; by simplify_eq.
Qed.






(** X4.  A [max_workers] the caller gives is the one every pool of the
    call is built with: the value itself when it is atomic (a number or
    [None], which asks for the pool's own default), and never the default
    computed from the CPU count. *)
Theorem explicit_max_workers_reaches_the_pool env k fn its
    (options : gmap string pyval) h v k' pk :
  options !! "max_workers" = Some v →
  EPoolInit k' pk ∈ trace (call env k fn its options h).2 →
  k' = k ∧ copy_of v (max_workers pk).
Proof.
  intros Hv Hev.
  destruct (call_pool_event _ _ _ _ _ _ _ _ Hev)
    as (d' & n & Hcopy & _ & -> & -> & _).
  destruct (dict_copy_Some _ _ _ _ Hcopy Hv) as (v' & -> & Hvv').
  done.
Qed.

Lemma explicit_max_workers_reaches_the_pool_witness :
  Sample.tuned !! "max_workers" = Some (VInt 3) ∧
  ∃ pk,
    EPoolInit ProcessPoolExecutor pk ∈
      trace (call Sample.env ProcessPoolExecutor Sample.double
               [Sample.three] Sample.tuned ∅).2 ∧
    max_workers pk = VInt 3.
Proof.
  assert (Sample.tuned !! "max_workers" = Some (VInt 3)) as Hv by done.
  split; [exact Hv|].
  exists (PoolKwargs (VInt 3) (Some (SetLock tqdm_auto))
            (Some [ClassLock tqdm_auto])).
  assert (EPoolInit ProcessPoolExecutor
            (PoolKwargs (VInt 3) (Some (SetLock tqdm_auto))
               (Some [ClassLock tqdm_auto])) ∈
          trace (call Sample.env ProcessPoolExecutor Sample.double
                   [Sample.three] Sample.tuned ∅).2) as Hev.
  { apply (list_elem_of_lookup_2 _ 2). by vm_compute. }
  split; [exact Hev|].
  by destruct (explicit_max_workers_reaches_the_pool Sample.env
                 ProcessPoolExecutor Sample.double [Sample.three]
                 Sample.tuned ∅ _ _ _ Hv Hev) as [_ H].
Defined.

(** X5.  [ex.map] is called with the [chunksize] the caller gave, and
    with 1 when the caller gave none; this holds for [thread_map] too,
    whose pool then ignores it. *)
Theorem chunksize_reaches_map env k fn its
    (options : gmap string pyval) h k' chunksize :
  EPoolMap k' chunksize ∈ trace (call env k fn its options h).2 →
  k' = k ∧
  match options !! "chunksize" with
  | None => chunksize = VInt 1
  | Some v => copy_of v chunksize
  end.
Proof.
  intros (d' & Hcopy & -> & ->)%call_map_event. split; [done|].
  destruct (options !! "chunksize") as [v|] eqn:Hv.
  - by destruct (dict_copy_Some _ _ _ _ Hcopy Hv) as (v' & -> & Hvv').
  - by rewrite (dict_copy_None _ _ _ Hcopy Hv).
Qed.

Lemma chunksize_reaches_map_witness :
  ∃ k' chunksize,
    EPoolMap k' chunksize ∈
      trace (call Sample.env ThreadPoolExecutor Sample.double
               [Sample.three] Sample.described ∅).2 ∧
    k' = ThreadPoolExecutor ∧ chunksize = VInt 1.
Proof.
  exists ThreadPoolExecutor, (VInt 1).
  assert (EPoolMap ThreadPoolExecutor (VInt 1) ∈
          trace (call Sample.env ThreadPoolExecutor Sample.double
                   [Sample.three] Sample.described ∅).2) as Hev.
  { apply (list_elem_of_lookup_2 _ 3). by vm_compute. }
  split; [exact Hev|].
  destruct (chunksize_reaches_map Sample.env ThreadPoolExecutor
              Sample.double [Sample.three] Sample.described ∅ _ _ Hev)
    as [Hk H].
  split; [exact Hk|]. vm_compute in H. exact H.
Defined.

(** ** Edge cases of the input *)

(** X6.  Called with no input sequence at all, [thread_map(fn)] and
    [process_map(fn)] fail with [IndexError] at [iterables[0]] when the
    caller gave no [total], before anything else has happened
    ([process_map] skips its warning, so it does not take the maximum of
    nothing); and when the caller gave [total], a well-configured call
    returns the empty list. *)
Theorem no_input_sequences env k fn (options : gmap string pyval) h :
  let r := call env k fn [] options h in
  (options !! "total" = None → copyable env h options = true →
   r.1 = Raises IndexError ∧ trace r.2 = []) ∧
  (Summary.well_configured env k [] options h = true →
   Summary.accepting env →
   r.1 = Returns [] ∧ warnings (trace r.2) = 0).
Proof.
  cbv zeta.
  assert (Summary.warning env k [] options = []) as Hw by by destruct k.
  split.
  - intros Hnone Hc.
    destruct (call_copied env k fn [] options h Hc) as (d' & Hcopy & -> & ->).
    pose proof (dict_copy_None _ _ _ Hcopy Hnone) as Hnone'.
    unfold Summary.executor_map, Summary.with_total.
    rewrite decide_False by (rewrite Hnone'; by intros [? ?]).
    by rewrite Hw.
  - intros Hwc Hacc. rewrite (call_total _ _ _ _ _ _ Hwc Hacc).
    split; [done|]. by rewrite call_warnings, Hw.
Qed.

Lemma no_input_sequences_witness :
  (call Sample.env ProcessPoolExecutor Sample.double [] Sample.described ∅).1
    = Raises IndexError ∧
  (call Sample.env ProcessPoolExecutor Sample.double [] Sample.counted ∅).1
    = Returns [].
Proof.
  split.
  - pose proof (no_input_sequences Sample.env ProcessPoolExecutor
                  Sample.double Sample.described ∅) as H.
    cbv zeta in H. destruct H as [H _].
    by destruct H as [H _]; [by vm_compute|by vm_compute|].
  - pose proof (no_input_sequences Sample.env ProcessPoolExecutor
                  Sample.double Sample.counted ∅) as H.
    cbv zeta in H. destruct H as [_ H].
    by destruct H as [H _]; [by vm_compute|done|].
Defined.

(** ** The warning of [process_map] *)

(** X7.  A warning that a call logs is a [RuntimeWarning] that reports
    the longest length hint of the input sequences, which is at least
    1000; and it is the first thing the call does, before the options
    are copied and whatever becomes of the call afterwards. *)
Theorem warning_reports_the_longest_hint env k fn its
    (options : gmap string pyval) h category n :
  let r := call env k fn its options h in
  EWarn category n ∈ trace r.2 →
  category = "RuntimeWarning" ∧
  n = max_list ((λ it, length_hint env it 0) <$> its) ∧
  1000 ≤ n ∧
  trace r.2 !! 0 = Some (EWarn category n).
Proof.
  cbv zeta. intros Hev.
  assert (EWarn category n ∈ Summary.warning env k its options) as Hw.
  { apply call_event in Hev as [?|(d' & _ & Hev)]; [done|].
    by apply executor_map_pool_kind in Hev. }
  destruct (warning_cases env k its options)
    as [Hnil|(_ & _ & _ & Hn & Hone)].
  { rewrite Hnil in Hw. by apply elem_of_nil in Hw. }
  rewrite Hone in Hw. apply list_elem_of_singleton in Hw. simplify_eq.
  repeat split; [done|].
  by destruct (call_run env k fn its options h)
    as [_ [(_ & -> & _)|(d' & _ & _ & ->)]]; rewrite Hone.
Qed.

Lemma warning_reports_the_longest_hint_witness :
  EWarn "RuntimeWarning" 1000 ∈
    trace (call Sample.env ProcessPoolExecutor Sample.double
             Sample.announced ∅ ∅).2 ∧
  (call Sample.env ProcessPoolExecutor Sample.double
     Sample.announced ∅ ∅).1 = Raises TypeError ∧
  trace (call Sample.env ProcessPoolExecutor Sample.double
           Sample.announced ∅ ∅).2 !! 0 =
    Some (EWarn "RuntimeWarning" 1000).
Proof.
  assert (EWarn "RuntimeWarning" 1000 ∈
          trace (call Sample.env ProcessPoolExecutor Sample.double
                   Sample.announced ∅ ∅).2) as Hev.
  { apply (list_elem_of_lookup_2 _ 0). by vm_compute. }
  split; [exact Hev|]. split; [by vm_compute|].
  pose proof (warning_reports_the_longest_hint Sample.env
                ProcessPoolExecutor Sample.double
                Sample.announced ∅ ∅
                "RuntimeWarning" 1000) as H.
  cbv zeta in H. by destruct (H Hev) as (_ & _ & _ & Hfirst).
Defined.

Lemma max_list_zeros {A} (f : A → nat) xs :
  Forall (λ x, f x = 0) xs → max_list (f <$> xs) = 0.
Proof.
  induction 1 as [|x xs Hx _ IH]; [done|].
  rewrite fmap_cons. simpl. by rewrite Hx, IH.
Qed.

Lemma warning_hints env env' k its d :
  (λ it, length_hint env it 0) <$> its =
  (λ it, length_hint env' it 0) <$> its →
  Summary.warning env k its d = Summary.warning env' k its d.
Proof. intros H. unfold Summary.warning. by rewrite H. Qed.

(** X8.  The fallback [length_hint] of lines 18-22 only looks at [len].
    Where [operator.length_hint] is missing, a call whose input
    sequences all lack a [len] (generators, iterators) never warns,
    whatever their [__length_hint__]; and with input sequences that all
    have a [len], whether a call warns does not depend on the
    interpreter at all. *)
Theorem fallback_hint_only_sees_len env env' k fn its
    (options : gmap string pyval) h :
  (has_length_hint env = false →
   Forall (λ it, len it = Err TypeError) its →
   warnings (trace (call env k fn its options h).2) = 0) ∧
  (Forall (λ it, ∃ xs, it = Sized xs) its →
   warnings (trace (call env k fn its options h).2) =
   warnings (trace (call env' k fn its options h).2)).
Proof.
  rewrite !call_warnings. split.
  - intros Hno Hall.
    destruct (warning_cases env k its options)
      as [->|(_ & _ & _ & Hn & _)]; [done|].
    cbv zeta in Hn. rewrite max_list_zeros in Hn; [lia|].
    eapply Forall_impl; [exact Hall|]. intros it Hit. simpl in Hit.
    unfold length_hint. by rewrite Hno, Hit.
  - intros Hall. f_equal. apply warning_hints.
    apply Forall_fmap_ext. eapply Forall_impl; [exact Hall|].
    intros it [xs ->]. unfold length_hint.
    by destruct (has_length_hint env), (has_length_hint env').
Qed.

Lemma fallback_hint_only_sees_len_witness :
  has_length_hint Sample.env_legacy = false ∧
  warnings (trace (call Sample.env_legacy ProcessPoolExecutor Sample.double
                     Sample.announced ∅ ∅).2) = 0 ∧
  warnings (trace (call Sample.env_legacy ProcessPoolExecutor Sample.double
                     [Sample.three] ∅ ∅).2) =
  warnings (trace (call Sample.env ProcessPoolExecutor Sample.double
                     [Sample.three] ∅ ∅).2).
Proof.
  split; [done|]. split.
  - pose proof (fallback_hint_only_sees_len Sample.env_legacy Sample.env
                  ProcessPoolExecutor Sample.double Sample.announced ∅ ∅)
      as [H _].
    apply H; [done|]. by repeat constructor.
  - pose proof (fallback_hint_only_sees_len Sample.env_legacy Sample.env
                  ProcessPoolExecutor Sample.double [Sample.three] ∅ ∅)
      as [_ H].
    apply H. repeat constructor. by eexists.
Defined.

(** ** Options the pool or the display rejects *)

(** [_executor_map] up to the pool constructor, for options that get
    that far. *)
Lemma executor_map_built env k fn its d :
  Summary.total_known its d = true →
  Summary.cpu_known env = true →
  Summary.class_given d = true →
  ∃ d1 n c pk evs,
    Summary.with_total its d = Ok d1 ∧
    Summary.default_max_workers env = Ok n ∧
    max_workers pk = default n (d !! "max_workers") ∧
    Forall (λ ev, step ev = 2) evs ∧
    Summary.executor_map env k fn its d =
      match check_max_workers (default n (d !! "max_workers")) with
      | Some e => (Raises e, ECpuCount :: evs ++ [EPoolInit k pk])
      | None =>
          let r := Summary.in_pool env k pk fn its (VClass c)
                     (default (VInt 1) (d !! "chunksize"))
                     (delete "chunksize"
                        (delete "max_workers" (delete "tqdm_class" d1))) in
          (r.1, ECpuCount :: evs ++ EPoolInit k pk :: r.2)
      end.
Proof.
  intros [d1 Hd1]%with_total_known Hcpu [c Hc]%class_given_default.
  unfold Summary.executor_map, Summary.resolved. rewrite Hd1.
  rewrite !(with_total_lookup _ _ _ _ Hd1) by done. rewrite Hc.
  unfold Summary.cpu_known in Hcpu.
  destruct (Summary.default_max_workers env) as [n|]; [|done].
  exists d1, n, c. unfold Summary.pool_arguments.
  destruct (tuple_ge _ _).
  - exists (PoolKwargs (default n (d !! "max_workers")) (Some (SetLock c))
              (Some [ClassLock c])), [EGetLock c].
    repeat split; by repeat constructor.
  - exists (PoolKwargs (default n (d !! "max_workers")) None None), [].
    repeat split; by repeat constructor.
Qed.

Lemma copy_of_no_class v v' :
  copy_of v v' → (∀ c, v ≠ VClass c) → ∀ c, v' ≠ VClass c.
Proof.
  intros Hc Hv c ->. destruct v; simpl in Hc; try done.
  - by eapply Hv.
  - by destruct Hc.
Qed.

(** X9.  A [tqdm_class] that is no class (so has no [set_lock]) makes a
    call on Python 3.7 or later fail with [AttributeError] at line 42,
    when the pool arguments are put together: no pool was built, no work
    was submitted and nothing is left to shut down. *)
Theorem display_class_without_set_lock env k fn its
    (options : gmap string pyval) h v :
  supports_initializer env = true →
  options !! "tqdm_class" = Some v →
  (∀ c, v ≠ VClass c) →
  copyable env h options = true →
  Summary.total_known its options = true →
  Summary.cpu_known env = true →
  let r := call env k fn its options h in
  r.1 = Raises AttributeError ∧ ∀ ev, ev ∈ trace r.2 → step ev ≤ 1.
Proof.
  intros Hv Hcls Hno Hc Ht Hcpu. cbv zeta.
  destruct (call_copied env k fn its options h Hc) as (d' & Hcopy & -> & ->).
  rewrite (total_known_copy its options d' Hcopy) in Ht.
  destruct (with_total_known _ _ Ht) as [d1 Hd1].
  destruct (dict_copy_Some _ _ _ _ Hcopy Hcls) as (v' & Hv' & Hvv').
  pose proof (copy_of_no_class _ _ Hvv' Hno) as Hno'.
  unfold Summary.executor_map, Summary.resolved. rewrite Hd1.
  rewrite !(with_total_lookup _ _ _ _ Hd1) by done. rewrite Hv'. simpl.
  unfold Summary.cpu_known in Hcpu.
  destruct (Summary.default_max_workers env) as [n|]; [|done].
  unfold Summary.pool_arguments. unfold supports_initializer in Hv.
  rewrite Hv.
  assert ((match v' with
           | VClass c =>
               Ok (PoolKwargs (default n (d' !! "max_workers"))
                     (Some (SetLock c)) (Some [ClassLock c]), [EGetLock c])
           | _ => Err AttributeError
           end) = Err AttributeError) as ->.
  { destruct v'; try done. by destruct (Hno' c). }
  split; [done|]. simpl. intros ev [Hw|Hev]%elem_of_app.
  - apply warning_only_warns in Hw as [m ->]. simpl. lia.
  - apply list_elem_of_singleton in Hev as ->. simpl. lia.
Qed.

Lemma display_class_without_set_lock_witness :
  (call Sample.env ThreadPoolExecutor Sample.double [Sample.three]
     {[ "tqdm_class" := VStr "tqdm" ]} ∅).1 = Raises AttributeError.
Proof.
  pose proof (display_class_without_set_lock Sample.env ThreadPoolExecutor
                Sample.double [Sample.three]
                {[ "tqdm_class" := VStr "tqdm" ]} ∅ (VStr "tqdm")) as H.
  cbv zeta in H.
  by destruct H as [H _]; [by vm_compute|by vm_compute|done|by vm_compute..|].
Defined.

Lemma check_chunksize_copy v v' :
  copy_of v v' → check_chunksize v' = check_chunksize v.
Proof. destruct v; simpl; try by intros ->. by intros [l' ->]. Qed.

Lemma check_max_workers_copy v v' :
  copy_of v v' → check_max_workers v' = check_max_workers v.
Proof. destruct v; simpl; try by intros ->. by intros [l' ->]. Qed.

(** X10.  A [chunksize] that [ProcessPoolExecutor.map] rejects (one
    below 1 with [ValueError], one that is no integer with [TypeError])
    makes [process_map] fail with that error: the pool was built and is
    shut down again, and the display is never constructed, [ex.map] being
    evaluated first.  [thread_map] takes the same options and maps as if
    [chunksize] were not there. *)
Theorem rejected_chunksize_fails_before_the_display env fn its
    (options : gmap string pyval) h v e :
  options !! "chunksize" = Some v →
  check_chunksize v = Err e →
  copyable env h options = true →
  Summary.total_known its options = true →
  Summary.cpu_known env = true →
  Summary.class_given options = true →
  Summary.workers_valid options = true →
  let r := call env ProcessPoolExecutor fn its options h in
  r.1 = Raises e ∧
  (∀ c kw, EDisplayInit c kw ∉ trace r.2) ∧
  last (trace r.2) = Some (EPoolShutdown ProcessPoolExecutor) ∧
  (Summary.accepting env →
   (call env ThreadPoolExecutor fn its options h).1 =
   Summary.eager_map fn its).
Proof.
  intros Hcs Hv Hc Ht Hcpu Hcls Hw. cbv zeta.
  assert (Summary.accepting env →
          (call env ThreadPoolExecutor fn its options h).1 =
          Summary.eager_map fn its) as Hthread.
  { intros Hacc. apply call_total; [|done].
    unfold Summary.well_configured. by rewrite Hc, Ht, Hcpu, Hcls, Hw. }
  destruct (call_copied env ProcessPoolExecutor fn its options h Hc)
    as (d' & Hcopy & -> & ->).
  pose proof (warning_is_warning env ProcessPoolExecutor its options)
    as Hwarn.
  set (w := Summary.warning env ProcessPoolExecutor its options) in *.
  clearbody w.
  destruct (executor_map_built env ProcessPoolExecutor fn its d')
    as (d1 & n & c & pk & evs & Hd1 & Hn & Hpk & Hevs & ->);
    [by rewrite <-(total_known_copy its options d')|done|
     by eapply class_given_copy|].
  assert (check_max_workers (default n (d' !! "max_workers")) = None) as ->.
  { pose proof (workers_valid_copy _ _ Hcopy Hw) as Hw'.
    unfold Summary.workers_valid in Hw'.
    destruct (d' !! "max_workers"); simpl.
    - by apply bool_decide_eq_true_1 in Hw'.
    - by eapply default_max_workers_valid. }
  destruct (dict_copy_Some _ _ _ _ Hcopy Hcs)
    as (v' & -> & Hv'%check_chunksize_copy).
  rewrite Hv in Hv'.
  unfold Summary.in_pool, submit. cbn [kind default id]. rewrite Hv'. simpl.
  split; [done|]. split; [|split; [|done]].
  - intros c' kw Hev. in_list; try done.
    + by apply Hwarn in Hev.
    + rewrite Forall_forall in Hevs. by apply Hevs in Hev.
  - by rewrite last_app, last_cons, last_app.
Qed.

Lemma rejected_chunksize_fails_before_the_display_witness :
  (call Sample.env ProcessPoolExecutor Sample.double [Sample.three]
     {[ "chunksize" := VInt 0 ]} ∅).1 = Raises ValueError ∧
  (call Sample.env ThreadPoolExecutor Sample.double [Sample.three]
     {[ "chunksize" := VInt 0 ]} ∅).1 =
  Summary.eager_map Sample.double [Sample.three].
Proof.
  assert (Summary.accepting Sample.env) as Hacc by done.
  pose proof (rejected_chunksize_fails_before_the_display Sample.env
                Sample.double [Sample.three]
                {[ "chunksize" := VInt 0 ]} ∅ (VInt 0) ValueError) as H.
  cbv zeta in H.
  destruct H as (Hp & _ & _ & Ht); [done|done|by vm_compute..|].
  split; [exact Hp|exact (Ht Hacc)].
Defined.

(** X11.  A [max_workers] that the pool constructor rejects (zero or
    less with [ValueError], no integer with [TypeError]) makes the call
    fail with that error in the constructor: [ex.map] is never called, no
    display is constructed, and nothing is shut down, the [with] block
    never having been entered. *)
Theorem rejected_max_workers_fails_in_the_constructor env k fn its
    (options : gmap string pyval) h v e :
  options !! "max_workers" = Some v →
  check_max_workers v = Some e →
  copyable env h options = true →
  Summary.total_known its options = true →
  Summary.cpu_known env = true →
  Summary.class_given options = true →
  let r := call env k fn its options h in
  r.1 = Raises e ∧
  (∃ pk, EPoolInit k pk ∈ trace r.2 ∧ copy_of v (max_workers pk)) ∧
  (∀ ev, ev ∈ trace r.2 → step ev ≤ 3).
Proof.
  intros Hmw Hv Hc Ht Hcpu Hcls. cbv zeta.
  destruct (call_copied env k fn its options h Hc) as (d' & Hcopy & -> & ->).
  pose proof (warning_is_warning env k its options) as Hwarn.
  set (w := Summary.warning env k its options) in *. clearbody w.
  destruct (executor_map_built env k fn its d')
    as (d1 & n & c & pk & evs & Hd1 & Hn & Hpk & Hevs & ->);
    [by rewrite <-(total_known_copy its options d')|done|
     by eapply class_given_copy|].
  destruct (dict_copy_Some _ _ _ _ Hcopy Hmw) as (v' & Hv' & Hvv').
  rewrite Hv' in Hpk |- *. cbn [default id] in Hpk |- *.
  rewrite (check_max_workers_copy _ _ Hvv'), Hv. split; [done|]. split.
  - exists pk. split; [|by rewrite Hpk]. simpl.
    rewrite elem_of_app, elem_of_cons, elem_of_app, list_elem_of_singleton.
    eauto.
  - simpl. intros ev Hev. in_list; subst; simpl; try lia.
    + apply Hwarn in Hev. destruct ev; simpl; (done || lia).
    + rewrite Forall_forall in Hevs. apply Hevs in Hev. lia.
Qed.

Lemma rejected_max_workers_fails_in_the_constructor_witness :
  (call Sample.env ThreadPoolExecutor Sample.double [Sample.three]
     {[ "max_workers" := VInt 0 ]} ∅).1 = Raises ValueError.
Proof.
  pose proof (rejected_max_workers_fails_in_the_constructor Sample.env
                ThreadPoolExecutor Sample.double [Sample.three]
                {[ "max_workers" := VInt 0 ]} ∅ (VInt 0) ValueError) as H.
  cbv zeta in H.
  by destruct H as [H _]; [done|done|by vm_compute..|].
Defined.

(** X12.  When the CPU count cannot be determined the call fails at
    line 36 with nothing but the query (and the warning of
    [process_map]) done: with [NotImplementedError] where [cpu_count] is
    the one of [multiprocessing], which raises it, and with [TypeError]
    where it is the one of [os], which answers [None]. *)
Theorem unknown_cpu_count_fails_before_the_pool env k fn its
    (options : gmap string pyval) h :
  Summary.cpu_known env = false →
  copyable env h options = true →
  Summary.total_known its options = true →
  let r := call env k fn its options h in
  r.1 = Raises (match cpu_module env with
                | MultiprocessingCpuCount _ => NotImplementedError
                | _ => TypeError
                end) ∧
  ∀ ev, ev ∈ trace r.2 → step ev ≤ 1.
Proof.
  intros Hcpu Hc Ht. cbv zeta.
  destruct (call_copied env k fn its options h Hc) as (d' & Hcopy & -> & ->).
  rewrite (total_known_copy its options d' Hcopy) in Ht.
  destruct (with_total_known _ _ Ht) as [d1 Hd1].
  unfold Summary.executor_map, Summary.resolved. rewrite Hd1.
  unfold Summary.cpu_known in Hcpu.
  unfold Summary.default_max_workers in *.
  destruct (cpu_module env) as [[n|]|[n|]|]; try done.
  all: split; [done|]; simpl; intros ev [Hw|Hev]%elem_of_app.
  all: try (apply warning_only_warns in Hw as [m ->]; simpl; lia).
  all: apply list_elem_of_singleton in Hev as ->; simpl; lia.
Qed.

Lemma unknown_cpu_count_fails_before_the_pool_witness :
  Summary.cpu_known Sample.env_legacy_unknown_cpu = false ∧
  (call Sample.env_legacy_unknown_cpu ThreadPoolExecutor Sample.double
     [Sample.three] Sample.tuned ∅).1 = Raises NotImplementedError.
Proof.
  split; [done|].
  pose proof (unknown_cpu_count_fails_before_the_pool
                Sample.env_legacy_unknown_cpu ThreadPoolExecutor
                Sample.double [Sample.three] Sample.tuned ∅) as H.
  cbv zeta in H.
  by destruct H as [H _]; [by vm_compute..|].
Defined.

(** ** The map, for any input *)

Lemma map_from_S fn its stop i steps :
  Reference.map_from fn its stop i (S steps) =
  if decide (stop = Some i) then Some (Ok [])
  else match fn (row its i) with
       | Err e => Some (Err e)
       | Ok v =>
           match Reference.map_from fn its stop (S i) steps with
           | Some (Ok vs) => Some (Ok (v :: vs))
           | r => r
           end
       end.
Proof. reflexivity. Qed.





(** Asking more often does not change how the lazy map has ended, so
    it ends in one way. *)
Lemma map_from_more fn its stop : ∀ steps i r,
  Reference.map_from fn its stop i steps = Some r →
  ∀ steps', steps ≤ steps' →
  Reference.map_from fn its stop i steps' = Some r.
Proof.
  induction steps as [|steps IH]; intros i r H steps' Hle; [done|].
  destruct steps' as [|steps']; [lia|].
  rewrite map_from_S in H |- *.
  case_decide; [done|]. destruct (fn (row its i)) as [v|e]; [|done].
  destruct (Reference.map_from fn its stop (S i) steps) as [r'|] eqn:Hr;
    [|done].
  rewrite (IH _ _ Hr steps') by lia. done.
Qed.

Lemma list_map_functional fn its o1 o2 :
  Reference.list_map fn its o1 → Reference.list_map fn its o2 → o1 = o2.
Proof.
  assert (∀ s1 s2 r1 r2,
            Reference.list_map_within s1 fn its = Some r1 →
            Reference.list_map_within s2 fn its = Some r2 → r1 = r2) as Hsame.
  { intros s1 s2 r1 r2. unfold Reference.list_map_within.
    destruct its as [|it its]; [congruence|].
    destruct (Reference.map_from _ _ _ _ s1) as [x1|] eqn:H1; [|done].
    destruct (Reference.map_from _ _ _ _ s2) as [x2|] eqn:H2; [|by destruct x1].
    pose proof (map_from_more _ _ _ _ _ _ H1 (s1 `max` s2)) as H1'.
    pose proof (map_from_more _ _ _ _ _ _ H2 (s1 `max` s2)) as H2'.
    rewrite H1' in H2' by lia.
    assert (x1 = x2) as -> by (apply Some_inj, H2'; lia).
    destruct x2; congruence. }
  intros [[s1 H1]|[-> H1]] [[s2 H2]|[-> H2]]; [by eapply Hsame|..|done].
  - by rewrite H2 in H1.
  - by rewrite H1 in H2.
Qed.



(** Where every sequence is unbounded the two part ways:
    [list(map(add, count(), count()))] raises what [add] raises at the
    fourth pair, and [thread_map(add, count(), count(), total=3)] never
    gets to [add]. *)
Example unbounded_map_never_reaches_fn :
  Reference.list_map Sample.add [Sample.count; Sample.count]
    (Raises (UserError 7)) ∧
  (call Sample.env ThreadPoolExecutor Sample.add
     [Sample.count; Sample.count] {[ "total" := VInt 3 ]} ∅).1 = Hangs.
Proof. split; [left; by exists 4|by vm_compute]. Qed.

(** ** The deep copy keeps the caller's objects to the caller *)

Lemma copy_each_separating f xs :
  separating f → extending f → ∀ h0 memo h ys memo' h',
  copy_each f xs memo h = Some (ys, memo', h') →
  h0 ⊆ h → memo_outside h0 memo →
  memo_outside h0 memo' ∧ Forall (outside h0) ys.
Proof.
  intros Hs He. induction xs as [|x xs IH]; simpl;
    intros h0 memo h ys memo' h' H Hsub Hm.
  - simplify_eq. split; [done|constructor].
  - destruct (f x memo h) as [[[y m1] h1]|] eqn:Hx; [|done].
    destruct (copy_each f xs m1 h1) as [[[zs m2] h2]|] eqn:Hxs; [|done].
    simplify_eq.
    destruct (Hs h0 _ _ _ _ _ _ Hx Hsub Hm) as [Hm1 Hy].
    destruct (IH h0 _ _ _ _ _ Hxs) as [Hm2 Hzs]; [|done|].
    { etrans; [exact Hsub|by eapply He]. }
    split; [done|by constructor].
Qed.

Lemma memo_outside_insert h0 h memo l :
  h0 ⊆ h → memo_outside h0 memo → memo_outside h0 (<[l := alloc h]> memo).
Proof.
  intros Hsub Hm l1 l2. rewrite lookup_insert. case_decide.
  - intros; simplify_eq. eapply lookup_weaken_None; [apply alloc_fresh|done].
  - apply Hm.
Qed.

(** [deepcopy] never hands back an object that was there before. *)
Lemma deepcopy_separating fuel : separating (deepcopy fuel).
Proof.
  induction fuel as [|fuel IH]; intros h0 v memo h y memo' h' H Hsub Hm;
    destruct v as [| | | | |l]; simpl in H; try by simplify_eq.
  - destruct (memo !! l) as [l'|] eqn:Hl; [|done]. simplify_eq.
    split; [done|]. by eapply Hm.
  - destruct (memo !! l) as [l'|] eqn:Hl.
    { simplify_eq. split; [done|]. by eapply Hm. }
    destruct (h !! l) as [[xs|d]|] eqn:Hhl.
    + destruct (copy_each _ _ _ _) as [[[ys m1] h1]|] eqn:Hc; [|done].
      simplify_eq.
      apply (copy_each_separating _ _ IH (deepcopy_extending fuel) h0) in Hc
        as [Hm1 _].
      * split; [done|]. simpl.
        eapply lookup_weaken_None; [apply alloc_fresh|done].
      * etrans; [exact Hsub|]. apply insert_subseteq, alloc_fresh.
      * by apply memo_outside_insert.
    + destruct (copy_each _ _ _ _) as [[[ys m1] h1]|] eqn:Hc; [|done].
      simplify_eq.
      apply (copy_each_separating _ _ IH (deepcopy_extending fuel) h0) in Hc
        as [Hm1 _].
      * split; [done|]. simpl.
        eapply lookup_weaken_None; [apply alloc_fresh|done].
      * etrans; [exact Hsub|]. apply insert_subseteq, alloc_fresh.
      * by apply memo_outside_insert.
    + simplify_eq. split; [done|]. simpl.
      by eapply lookup_weaken_None.
Qed.

(** The values of a deep-copied dictionary are atomic or new objects. *)
Lemma deepcopy_dict_outside fuel l d h v' memo' h' d' :
  h !! l = Some (ODict d) →
  deepcopy fuel (VRef l) ∅ h = Some (v', memo', h') →
  h' !! alloc h = Some (ODict d') →
  ∀ key v, d' !! key = Some v → outside h v.
Proof.
  intros Hl H Hd'.
  destruct fuel as [|fuel]; simpl in H; rewrite lookup_empty in H; [done|].
  rewrite Hl in H.
  destruct (copy_each _ _ _ _) as [[[ys m1] h1]|] eqn:Hc; [|done].
  simplify_eq. rewrite lookup_insert_eq in Hd'. simplify_eq.
  apply (copy_each_separating _ _ (deepcopy_separating fuel)
           (deepcopy_extending fuel) h) in Hc as [_ Hys].
  - intros key v Hv. apply elem_of_list_to_map_2, elem_of_zip_r in Hv.
    rewrite Forall_forall in Hys. by apply Hys.
  - apply insert_subseteq, alloc_fresh.
  - apply memo_outside_insert; [done|]. intros l1 l2.
    by rewrite lookup_empty.
Qed.

Lemma outside_weaken h0 h v : h0 ⊆ h → outside h v → outside h0 v.
Proof.
  intros Hsub. destruct v; simpl; try done.
  intros Hv. by eapply lookup_weaken_None.
Qed.

Lemma py_deepcopy_outside env l σ d l' σ1 d' :
  heap σ !! l = Some (ODict d) →
  py_deepcopy env l σ = (Returns l', σ1) →
  heap σ1 !! l' = Some (ODict d') →
  ∀ key v, d' !! key = Some v → outside (heap σ) v.
Proof.
  intros Hl H Hd'. unfold py_deepcopy in H.
  destruct (deepcopy _ _ _ _) as [[[v m] h']|] eqn:Hc; [|done].
  destruct (deepcopy_dict _ _ _ _ _ _ _ Hl Hc) as (-> & _ & _).
  simplify_eq. simpl in Hd'. by eapply deepcopy_dict_outside.
Qed.

(** The options of a display, in terms of the deep copy: its values are
    atomic or objects that the caller's store did not have. *)
Lemma call_display_outside env k fn its d h c kw :
  EDisplayInit c kw ∈ trace (call env k fn its d h).2 →
  ∃ d' d1, (∀ key v, d' !! key = Some v → outside h v) ∧
    Summary.with_total its d' = Ok d1 ∧
    kw = delete "chunksize" (delete "max_workers" (delete "tqdm_class" d1)).
Proof.
  unfold call. rewrite bind_run, dict_new_run. cbv beta iota. cbn [heap].
  rewrite (adapter_unpacked env k fn its _ d) by apply heap_set_dict.
  set (σ1 := log _ _).
  assert (heap σ1 !! alloc h = Some (ODict d)) as H1
    by apply lookup_insert_eq.
  assert (h ⊆ heap σ1) as Hsub1 by apply insert_subseteq, alloc_fresh.
  assert (∀ ev, ev ∈ trace σ1 → is_warning ev = true) as Hw1.
  { intros ev Hev. simpl in Hev. by apply warning_is_warning in Hev. }
  clearbody σ1.
  rewrite bind_run, (dict_unpack_run _ _ _ H1).
  set (σ2 := set_dict _ _ _).
  assert (heap σ2 !! alloc (heap σ1) = Some (ODict d)) as H2
    by apply lookup_insert_eq.
  assert (h ⊆ heap σ2) as Hsub2.
  { etrans; [exact Hsub1|]. apply insert_subseteq, alloc_fresh. }
  assert (∀ ev, ev ∈ trace σ2 → is_warning ev = true) as Hw2 by done.
  clearbody σ2.
  destruct (py_deepcopy_dict env _ σ2 d H2)
    as [[Hc Hn]|(h' & d' & Hc & Hsub & Hd' & Hcopy)].
  - unfold _executor_map. rewrite bind_run, Hc. simpl.
    intros Hev. by apply Hw2 in Hev.
  - destruct (executor_map_rest env k fn its _ σ2 _ _ d' Hc Hd')
      as [dfin ->]. simpl.
    intros [Hev|Hev]%elem_of_app; [by apply Hw2 in Hev|].
    destruct (executor_map_events _ _ _ _ _ _ Hev)
      as (d1 & Hd1 & [?|(n & Hn & H)]); [done|].
    exists d', d1. split; [|split; [done|]].
    + intros key v Hv. eapply outside_weaken; [exact Hsub2|].
      by eapply py_deepcopy_outside.
    + simpl in H.
      destruct H as [(c' & _ & _ & ?)|[(c' & _ & _ & ?)|
        [(_ & ?)|[?|[?|(c' & _ & ?)]]]]]; by simplify_eq.
Qed.

(** X14.  The display is never handed an object of the caller: every
    list or dictionary among the options it is constructed with is one
    the call created (by [deepcopy], line 32), so what the display does
    to its options cannot reach the objects the caller passed. *)
Theorem display_gets_no_object_of_the_caller env k fn its
    (options : gmap string pyval) h c kw key l :
  EDisplayInit c kw ∈ trace (call env k fn its options h).2 →
  kw !! key = Some (VRef l) →
  h !! l = None.
Proof.
  intros (d' & d1 & Hout & Hd1 & ->)%call_display_outside Hkey.
  assert (d1 !! key = Some (VRef l)) as Hkey1.
  { apply lookup_delete_Some in Hkey as [_ Hkey].
    apply lookup_delete_Some in Hkey as [_ Hkey].
    by apply lookup_delete_Some in Hkey as [_ Hkey]. }
  assert (d' !! key = Some (VRef l)) as Hkey'.
  { unfold Summary.with_total in Hd1. case_decide; [by simplify_eq|].
    repeat case_match; simplify_eq.
    apply lookup_insert_Some in Hkey1 as [[_ ?]|[_ ?]]; done. }
  exact (Hout _ _ Hkey').
Qed.

Lemma display_gets_no_object_of_the_caller_witness :
  EDisplayInit tqdm_auto {[ "postfix" := VRef 5; "total" := VInt 3 ]} ∈
    trace (call Sample.env ThreadPoolExecutor Sample.double [Sample.three]
             Sample.postfixed (heap Sample.caller)).2 ∧
  heap Sample.caller !! 1 = Some (OList [VStr "loss"]) ∧
  heap Sample.caller !! 5 = None.
Proof.
  assert (EDisplayInit tqdm_auto
            {[ "postfix" := VRef 5; "total" := VInt 3 ]} ∈
          trace (call Sample.env ThreadPoolExecutor Sample.double
                   [Sample.three] Sample.postfixed
                   (heap Sample.caller)).2) as Hev.
  { apply (list_elem_of_lookup_2 _ 4). by vm_compute. }
  split; [exact Hev|]. split; [by vm_compute|].
  apply (display_gets_no_object_of_the_caller Sample.env ThreadPoolExecutor
           Sample.double [Sample.three] Sample.postfixed
           (heap Sample.caller) _ _ "postfix" 5 Hev).
  by vm_compute.
Defined.

(** ** Calling again *)

Lemma dict_copy_default d d' key dflt :
  dict_copy d d' →
  default dflt (d' !! key) = default dflt (d !! key) ∨
  ∃ l l', default dflt (d !! key) = VRef l ∧
          default dflt (d' !! key) = VRef l'.
Proof.
  intros Hc. specialize (Hc key).
  destruct Hc as [x y Hxy|]; simpl; [|by left].
  destruct x; simpl in Hxy; try (left; by subst).
  destruct Hxy as [l' ->]. right. eauto.
Qed.

Lemma with_total_copy its d d' :
  dict_copy d d' →
  match Summary.with_total its d, Summary.with_total its d' with
  | Ok d1, Ok d1' => dict_copy d1 d1'
  | Err e, Err e' => e = e'
  | _, _ => False
  end.
Proof.
  intros Hc. unfold Summary.with_total.
  pose proof (Hc "total") as Ht.
  destruct Ht as [x y _|].
  - rewrite !decide_True by eauto. done.
  - rewrite !decide_False by (by intros [? ?]).
    destruct (its !! 0) as [first|]; [|done].
    destruct (len first); [|done].
    intros key. rewrite !lookup_insert. case_decide; [by constructor|apply Hc].
Qed.

(** What comes out of [_executor_map] is decided by the caller's
    options: where the deep copy put its objects is of no account, as
    long as the display takes its options. *)
Lemma executor_map_copy env k fn its d d' :
  dict_copy d d' → Summary.accepting env →
  (Summary.executor_map env k fn its d').1 =
  (Summary.executor_map env k fn its d).1.
Proof.
  intros Hc Hacc. unfold Summary.executor_map.
  pose proof (with_total_copy its d d' Hc) as Ht.
  destruct (Summary.with_total its d) as [d1|e],
    (Summary.with_total its d') as [d1'|e']; try done; [|by subst].
  unfold Summary.resolved.
  destruct (Summary.default_max_workers env) as [n|]; [|done].
  unfold Summary.pool_arguments, Summary.in_pool, submit. cbn [kind].
  destruct (dict_copy_default d1 d1' "tqdm_class" (VClass tqdm_auto) Ht)
    as [->|(l1 & l1' & -> & ->)];
  destruct (dict_copy_default d1 d1' "max_workers" n Ht)
    as [->|(l2 & l2' & -> & ->)];
  destruct (dict_copy_default d1 d1' "chunksize" (VInt 1) Ht)
    as [->|(l3 & l3' & -> & ->)].
  all: destruct k, (tuple_ge (version_info env) (3, 7)); simpl.
  all: repeat case_match; simplify_eq; rewrite ?Hacc in *; simplify_eq;
    try done.
Qed.

(** X15.  A keyword dictionary can be used again.  A call leaves the
    dictionary it was given as it was, and what comes out of a call is
    decided by that dictionary and the input alone: so the same call
    issued again, in the store the first one left behind, comes out as
    the first one did, returning the same list or raising the same
    exception.  (The display is assumed to take its options.) *)
Theorem call_can_be_repeated env k fn its tqdm_kwargs σ
    (d : gmap string pyval) :
  heap σ !! tqdm_kwargs = Some (ODict d) →
  copyable env (heap σ) d = true →
  Summary.accepting env →
  let first := adapter env k fn its tqdm_kwargs σ in
  let second := adapter env k fn its tqdm_kwargs first.2 in
  heap first.2 !! tqdm_kwargs = Some (ODict d) ∧
  second.1 = first.1 ∧
  first.1 = (Summary.executor_map env k fn its d).1.
Proof.
  intros Hl Hc Hacc first second.
  assert (∀ σ', heap σ ⊆ heap σ' →
            heap σ ⊆ heap (adapter env k fn its tqdm_kwargs σ').2 ∧
            (adapter env k fn its tqdm_kwargs σ').1 =
            (Summary.executor_map env k fn its d).1) as Hrun.
  { intros σ' Hsub.
    pose proof (lookup_weaken _ _ _ _ Hl Hsub) as Hl'.
    rewrite (adapter_unpacked env k fn its _ d σ' Hl').
    destruct (unpacked_run env k fn its tqdm_kwargs d
                (log (Summary.warning env k its d) σ') Hl')
      as [Hsub' [(_ & _ & Hn)|(d' & Hcopy & -> & _)]].
    - rewrite (Hn (heap σ)) in Hc; done.
    - split; [by etrans|]. by apply executor_map_copy. }
  destruct (Hrun σ) as [Hsub1 H1]; [done|]. fold first in Hsub1, H1.
  destruct (Hrun first.2) as [_ H2]; [done|]. fold second in H2.
  split; [by eapply lookup_weaken|]. split; [congruence|done].
Qed.

Lemma call_can_be_repeated_witness :
  heap Sample.caller !! 0 = Some (ODict Sample.tqdm_kwargs) ∧
  (adapter Sample.env ProcessPoolExecutor Sample.double [Sample.three] 0
     (adapter Sample.env ProcessPoolExecutor Sample.double [Sample.three] 0
        Sample.caller).2).1 =
  (adapter Sample.env ProcessPoolExecutor Sample.double [Sample.three] 0
     Sample.caller).1.
Proof.
  assert (heap Sample.caller !! 0 = Some (ODict Sample.tqdm_kwargs)) as Hl
    by by vm_compute.
  assert (Summary.accepting Sample.env) as Hacc by done.
  split; [exact Hl|].
  pose proof (call_can_be_repeated Sample.env ProcessPoolExecutor
                Sample.double [Sample.three] 0 Sample.caller
                Sample.tqdm_kwargs Hl) as H.
  cbv zeta in H. by destruct H as (_ & H & _); [by vm_compute|exact Hacc|].
Defined.
